(** * VisualNote: workspace, gesture and export models

    A shallow embedding of the VisualNote sources
    ([workspace/workspaceState.js], [workspace/noteModel.js],
    [workspace/linkModel.js], [gesture/gestureEngine.js],
    [export/exportManager.js]) together with the properties their
    specification states about them.

    JavaScript numbers are read as real numbers: every arithmetic
    operation of the sources is the exact operation on [R].  The two
    module-level objects [workspace] and [selection] and the two module
    counters [noteCounter] and [linkCounter] are gathered in one record
    that every operation takes and returns. *)

From Stdlib Require Import Reals Lra Lia List Bool Arith String Ascii.
From Stdlib Require Import DecimalString DecimalNat.
Import ListNotations.

Open Scope string_scope.
Open Scope list_scope.
Open Scope R_scope.

(** ** Data model *)

Record Point := mkPoint { px : R; py : R }.

Record Note := mkNote {
  n_id : string;
  n_x : R;
  n_y : R;
  n_width : R;
  n_height : R;
  n_text : string;
  n_selected : bool;
  n_color : string
}.

Record Link := mkLink {
  l_id : string;
  l_from : string;
  l_to : string
}.

(** [workspace], [selection] and the counters of the note and link
    modules. *)
Record State := mkState {
  notes : list Note;
  links : list Link;
  zoom : R;
  offsetX : R;
  offsetY : R;
  selectedNoteIds : list string;
  linkSourceId : option string;
  noteCounter : nat;
  linkCounter : nat
}.

Definition initial : State :=
  mkState [] [] 1 0 0 [] None 0 0.

Definition MIN_ZOOM : R := 3 / 10.
Definition MAX_ZOOM : R := 3.

(** ** workspaceState.js: coordinate transforms and zoom *)

Definition worldToScreen (w : State) (wx wy : R) : Point :=
  mkPoint ((wx + offsetX w) * zoom w) ((wy + offsetY w) * zoom w).

Definition screenToWorld (w : State) (sx sy : R) : Point :=
  mkPoint (sx / zoom w - offsetX w) (sy / zoom w - offsetY w).

Definition set_view (w : State) (z ox oy : R) : State :=
  mkState (notes w) (links w) z ox oy
          (selectedNoteIds w) (linkSourceId w) (noteCounter w) (linkCounter w).

(** [Math.max(MIN_ZOOM, Math.min(MAX_ZOOM, z))] *)
Definition clampZoom (z : R) : R := Rmax MIN_ZOOM (Rmin MAX_ZOOM z).

(** The four assignments that end both zoom functions. *)
Definition rezoom (w : State) (newZoom centerX centerY : R) : State :=
  let oldZoom := zoom w in
  let worldX := centerX / oldZoom - offsetX w in
  let worldY := centerY / oldZoom - offsetY w in
  set_view w newZoom (centerX / newZoom - worldX) (centerY / newZoom - worldY).

Definition applyZoom (delta centerX centerY : R) (w : State) : State :=
  let oldZoom := zoom w in
  let factor := if Rlt_dec 0 delta then 108 / 100 else 92 / 100 in
  let newZoom := clampZoom (oldZoom * factor) in
  if Req_dec_T newZoom oldZoom then w
  else rezoom w newZoom centerX centerY.

Definition applyZoomFactor (factor centerX centerY : R) (w : State) : State :=
  let oldZoom := zoom w in
  let newZoom := clampZoom (oldZoom * factor) in
  if Rlt_dec (Rabs (newZoom - oldZoom)) (1 / 1000) then w
  else rezoom w newZoom centerX centerY.

Definition applyPan (dxScreen dyScreen : R) (w : State) : State :=
  set_view w (zoom w) (offsetX w + dxScreen / zoom w)
                      (offsetY w + dyScreen / zoom w).

(** A call of one of the two zoom functions. *)
Inductive ZoomCall :=
| ZoomStep (delta centerX centerY : R)
| ZoomBy (factor centerX centerY : R).

Definition zoomCall (c : ZoomCall) (w : State) : State :=
  match c with
  | ZoomStep d cx cy => applyZoom d cx cy w
  | ZoomBy f cx cy => applyZoomFactor f cx cy w
  end.

Definition zoomCalls (cs : list ZoomCall) (w : State) : State :=
  fold_left (fun s c => zoomCall c s) cs w.

Definition zoom_in_range (w : State) : Prop := MIN_ZOOM <= zoom w <= MAX_ZOOM.

Definition isZoomIn (c : ZoomCall) : Prop :=
  match c with
  | ZoomStep d _ _ => 0 < d
  | ZoomBy _ _ _ => False
  end.


(** ** workspaceState.js: selection *)

(** [Array.prototype.includes] on an array of strings. *)
Definition includes (l : list string) (s : string) : bool :=
  existsb (String.eqb s) l.

Definition set_selected (b : bool) (n : Note) : Note :=
  mkNote (n_id n) (n_x n) (n_y n) (n_width n) (n_height n) (n_text n) b
         (n_color n).

Definition set_notes (w : State) (ns : list Note) : State :=
  mkState ns (links w) (zoom w) (offsetX w) (offsetY w)
          (selectedNoteIds w) (linkSourceId w) (noteCounter w) (linkCounter w).

Definition set_links (w : State) (ls : list Link) : State :=
  mkState (notes w) ls (zoom w) (offsetX w) (offsetY w)
          (selectedNoteIds w) (linkSourceId w) (noteCounter w) (linkCounter w).

Definition set_selectedNoteIds (w : State) (ids : list string) : State :=
  mkState (notes w) (links w) (zoom w) (offsetX w) (offsetY w)
          ids (linkSourceId w) (noteCounter w) (linkCounter w).

(** [workspace.notes.find(p)] followed by an in-place update of the note
    found: the first note satisfying [p] is replaced by its image. *)
Fixpoint update_first (p : Note -> bool) (f : Note -> Note) (ns : list Note)
  : list Note :=
  match ns with
  | [] => []
  | n :: ns' => if p n then f n :: ns' else n :: update_first p f ns'
  end.

Definition has_id (id : string) (n : Note) : bool := String.eqb (n_id n) id.

Definition clearSelection (w : State) : State :=
  set_notes (set_selectedNoteIds w []) (map (set_selected false) (notes w)).

Definition selectNote (noteId : string) (addToSelection : bool) (w : State)
  : State :=
  let w1 := if addToSelection then w else clearSelection w in
  let ids :=
    if includes (selectedNoteIds w1) noteId then selectedNoteIds w1
    else selectedNoteIds w1 ++ [noteId] in
  set_notes (set_selectedNoteIds w1 ids)
            (map (fun n => set_selected (includes ids (n_id n)) n) (notes w1)).

Definition deselectNote (noteId : string) (w : State) : State :=
  let ids := filter (fun id => negb (String.eqb id noteId)) (selectedNoteIds w) in
  set_notes (set_selectedNoteIds w ids)
            (update_first (has_id noteId) (set_selected false) (notes w)).

Definition getSelectedNotes (w : State) : list Note :=
  filter n_selected (notes w).

(** ** linkModel.js *)

(** Decimal rendering of a counter, as a template literal prints it. *)
Definition decimal (n : nat) : string :=
  NilEmpty.string_of_uint (Nat.to_uint n).

Definition linkId (n : nat) : string := String.append "link_" (decimal n).

(** The predicate passed to [workspace.links.some] by [createLink]. *)
Definition connects (a b : string) (l : Link) : bool :=
  (String.eqb (l_from l) a && String.eqb (l_to l) b)
  || (String.eqb (l_from l) b && String.eqb (l_to l) a).

Definition createLink (fromId toId : string) (w : State)
  : option Link * State :=
  if String.eqb fromId toId then (None, w)
  else if existsb (connects fromId toId) (links w) then (None, w)
  else
    let c := S (linkCounter w) in
    let link := mkLink (linkId c) fromId toId in
    (Some link,
     mkState (notes w) (links w ++ [link]) (zoom w) (offsetX w) (offsetY w)
             (selectedNoteIds w) (linkSourceId w) (noteCounter w) c).

Definition deleteLink (id : string) (w : State) : State :=
  set_links w (filter (fun l => negb (String.eqb (l_id l) id)) (links w)).

Definition touches (noteId : string) (l : Link) : bool :=
  String.eqb (l_from l) noteId || String.eqb (l_to l) noteId.

Definition deleteLinksForNote (noteId : string) (w : State) : State :=
  set_links w
    (filter (fun l => negb (String.eqb (l_from l) noteId)
                      && negb (String.eqb (l_to l) noteId)) (links w)).

Definition getLinksForNote (noteId : string) (w : State) : list Link :=
  filter (touches noteId) (links w).

(** ** noteModel.js *)

Definition NOTE_COLORS : list string :=
  [ "#6366f1"   (* Indigo *)
  ; "#8b5cf6"   (* Violet *)
  ; "#ec4899"   (* Pink *)
  ; "#10b981"   (* Emerald *)
  ; "#f59e0b"   (* Amber *)
  ; "#22d3ee"   (* Cyan *)
  ; "#ef4444"   (* Red *)
  ; "#3b82f6"   (* Blue *) ].

Definition noteId (n : nat) : string := String.append "note_" (decimal n).

(** [createNote(worldX, worldY, text = 'New Note')]: an absent third
    argument is [None].  The counter is incremented while the [id] field
    is built, so the [color] field reads the incremented value.  The
    index [c mod 8] is always inside the palette; the default of [nth]
    stands for [undefined] and is never returned. *)
Definition createNote (worldX worldY : R) (text : option string) (w : State)
  : Note * State :=
  let width := 200 in
  let height := 120 in
  let c := S (noteCounter w) in
  let note :=
    mkNote (noteId c) (worldX - width / 2) (worldY - height / 2) width height
           (match text with Some t => t | None => "New Note" end)
           false
           (nth (c mod List.length NOTE_COLORS) NOTE_COLORS "") in
  (note,
   mkState (notes w ++ [note]) (links w) (zoom w) (offsetX w) (offsetY w)
           (selectedNoteIds w) (linkSourceId w) c (linkCounter w)).

Definition deleteNote (id : string) (w : State) : State :=
  let w1 := deleteLinksForNote id w in
  let w2 := set_notes w1 (filter (fun n => negb (String.eqb (n_id n) id)) (notes w1)) in
  set_selectedNoteIds w2
    (filter (fun sid => negb (String.eqb sid id)) (selectedNoteIds w2)).

(** The loop runs over a copy of the selected ids taken before the first
    deletion. *)
Definition deleteSelectedNotes (w : State) : State :=
  let ids := selectedNoteIds w in
  clearSelection (fold_left (fun s id => deleteNote id s) ids w).

Definition move_by (dx dy : R) (n : Note) : Note :=
  mkNote (n_id n) (n_x n + dx) (n_y n + dy) (n_width n) (n_height n)
         (n_text n) (n_selected n) (n_color n).

Definition moveNote (id : string) (dx dy : R) (w : State) : State :=
  set_notes w (update_first (has_id id) (move_by dx dy) (notes w)).

Definition moveSelectedNotes (dx dy : R) (w : State) : State :=
  fold_left (fun s id => moveNote id dx dy s) (selectedNoteIds w) w.

Definition set_text (t : string) (n : Note) : Note :=
  mkNote (n_id n) (n_x n) (n_y n) (n_width n) (n_height n) t (n_selected n)
         (n_color n).

Definition updateNoteText (id newText : string) (w : State) : State :=
  set_notes w (update_first (has_id id) (set_text newText) (notes w)).

Definition getNoteById (id : string) (w : State) : option Note :=
  find (has_id id) (notes w).

(** ** Operations of the workspace as a command language *)

(** The exported functions of the three workspace modules that change
    notes, links or the selection, and the zoom and pan calls. *)
Inductive Op :=
| OpCreateNote (worldX worldY : R) (text : option string)
| OpDeleteNote (id : string)
| OpDeleteSelectedNotes
| OpSelectNote (noteId : string) (addToSelection : bool)
| OpDeselectNote (noteId : string)
| OpClearSelection
| OpMoveNote (id : string) (dx dy : R)
| OpMoveSelectedNotes (dx dy : R)
| OpUpdateNoteText (id newText : string)
| OpCreateLink (fromId toId : string)
| OpDeleteLink (id : string)
| OpDeleteLinksForNote (noteId : string)
| OpApplyZoom (delta centerX centerY : R)
| OpApplyZoomFactor (factor centerX centerY : R)
| OpApplyPan (dxScreen dyScreen : R).

Definition exec (op : Op) (w : State) : State :=
  match op with
  | OpCreateNote wx wy t => snd (createNote wx wy t w)
  | OpDeleteNote id => deleteNote id w
  | OpDeleteSelectedNotes => deleteSelectedNotes w
  | OpSelectNote id add => selectNote id add w
  | OpDeselectNote id => deselectNote id w
  | OpClearSelection => clearSelection w
  | OpMoveNote id dx dy => moveNote id dx dy w
  | OpMoveSelectedNotes dx dy => moveSelectedNotes dx dy w
  | OpUpdateNoteText id t => updateNoteText id t w
  | OpCreateLink a b => snd (createLink a b w)
  | OpDeleteLink id => deleteLink id w
  | OpDeleteLinksForNote id => deleteLinksForNote id w
  | OpApplyZoom d cx cy => applyZoom d cx cy w
  | OpApplyZoomFactor f cx cy => applyZoomFactor f cx cy w
  | OpApplyPan dx dy => applyPan dx dy w
  end.

Definition run (ops : list Op) (w : State) : State :=
  fold_left (fun s op => exec op s) ops w.

(** A state is reachable when some sequence of operations leads to it
    from the initial workspace. *)
Definition reachable (w : State) : Prop := exists ops, w = run ops initial.

(** The flag of every note agrees with membership of its id in the
    selected-id list. *)
Definition selection_synced (w : State) : Prop :=
  forall n, In n (notes w) ->
    n_selected n = includes (selectedNoteIds w) (n_id n).

(** [selectNote] is given the id of a note of the workspace; every other
    operation is unrestricted. *)
Definition selects_existing (w : State) (op : Op) : bool :=
  match op with
  | OpSelectNote id _ => existsb (has_id id) (notes w)
  | _ => true
  end.

Fixpoint admissible (ops : list Op) (w : State) : bool :=
  match ops with
  | [] => true
  | op :: ops' => selects_existing w op && admissible ops' (exec op w)
  end.

Definition isCreateNote (op : Op) : bool :=
  match op with OpCreateNote _ _ _ => true | _ => false end.

(** Number of links joining the unordered pair [{a, b}]. *)
Definition links_between (a b : string) (w : State) : nat :=
  List.length (filter (connects a b) (links w)).

(** ** gestureEngine.js: per-hand state *)

Definition PINCH_THRESHOLD : R := 6 / 100.
Definition PINCH_DEBOUNCE_MS : R := 120.
Definition RELEASE_THRESHOLD : R := 9 / 100.
Definition SMOOTHING_FACTOR : R := 4 / 10.
Definition GESTURE_CONFIRM_FRAMES : nat := 3.

Definition THUMB_TIP : nat := 4.
Definition INDEX_MCP : nat := 5.
Definition INDEX_TIP : nat := 8.
Definition MIDDLE_MCP : nat := 9.
Definition MIDDLE_TIP : nat := 12.
Definition RING_MCP : nat := 13.
Definition RING_TIP : nat := 16.
Definition PINKY_MCP : nat := 17.
Definition PINKY_TIP : nat := 20.

(** The strings ['none'], ['point'], ['pinch'], ['fist'], ['open']. *)
Inductive Gesture := GNone | GPoint | GPinch | GFist | GOpen.

Definition Gesture_eqb (a b : Gesture) : bool :=
  match a, b with
  | GNone, GNone | GPoint, GPoint | GPinch, GPinch
  | GFist, GFist | GOpen, GOpen => true
  | _, _ => false
  end.

(** A landmark is read through its [x] and [y] only. *)
Record HandState := mkHand {
  detected : bool;
  landmarks : option (list Point);
  cursor : Point;
  smoothCursor : Point;
  prevSmoothCursor : Point;
  isPinching : bool;
  pinchStartTime : R;
  pinchConfirmed : bool;
  pinchJustConfirmed : bool;
  pinchJustReleased : bool;
  gestureMode : Gesture;
  prevGestureMode : Gesture;
  gestureCandidate : Gesture;
  gestureCandidateFrames : nat
}.

Definition createHandState : HandState :=
  mkHand false None (mkPoint 0 0) (mkPoint 0 0) (mkPoint 0 0)
         false 0 false false false GNone GNone GNone 0.

Definition Rltb (a b : R) : bool := if Rlt_dec a b then true else false.
Definition Rleb (a b : R) : bool := if Rle_dec a b then true else false.

(** [lm[i]]; the default is never returned once the length test of
    [processOneHand] has passed. *)
Definition at_index (lm : list Point) (i : nat) : Point :=
  nth i lm (mkPoint 0 0).

Definition dist (a b : Point) : R :=
  sqrt ((px a - px b) ^ 2 + (py a - py b) ^ 2).

Definition isFingerExtended (lm : list Point) (tipIdx mcpIdx : nat) : bool :=
  Rltb (py (at_index lm tipIdx)) (py (at_index lm mcpIdx) - 2 / 100).

Definition isFingerCurled (lm : list Point) (tipIdx mcpIdx : nat) : bool :=
  Rltb (py (at_index lm mcpIdx) + 1 / 100) (py (at_index lm tipIdx)).

Definition smooth (current previous factor : R) : R :=
  previous + (current - previous) * factor.

Definition classifyGesture (lm : list Point) : Gesture :=
  let thumbIndexDist := dist (at_index lm THUMB_TIP) (at_index lm INDEX_TIP) in
  if Rltb thumbIndexDist PINCH_THRESHOLD then GPinch
  else
    let indexExtended := isFingerExtended lm INDEX_TIP INDEX_MCP in
    let middleExtended := isFingerExtended lm MIDDLE_TIP MIDDLE_MCP in
    let ringCurled := isFingerCurled lm RING_TIP RING_MCP in
    let pinkyCurled := isFingerCurled lm PINKY_TIP PINKY_MCP in
    let indexCurled := isFingerCurled lm INDEX_TIP INDEX_MCP in
    let middleCurled := isFingerCurled lm MIDDLE_TIP MIDDLE_MCP in
    let ringExtended := isFingerExtended lm RING_TIP RING_MCP in
    let pinkyExtended := isFingerExtended lm PINKY_TIP PINKY_MCP in
    if indexCurled && middleCurled && ringCurled && pinkyCurled then GFist
    else if indexExtended && middleExtended && ringExtended && pinkyExtended
    then GOpen
    else if indexExtended && middleCurled && ringCurled && pinkyCurled
    then GPoint
    else if indexExtended then GPoint
    else GNone.

(** Field updates of a hand state, grouped as the source groups them. *)
Definition with_detection (h : HandState) (d : bool) (lm : option (list Point))
  : HandState :=
  mkHand d lm (cursor h) (smoothCursor h) (prevSmoothCursor h)
         (isPinching h) (pinchStartTime h) (pinchConfirmed h)
         (pinchJustConfirmed h) (pinchJustReleased h)
         (gestureMode h) (prevGestureMode h) (gestureCandidate h)
         (gestureCandidateFrames h).

Definition with_cursors (h : HandState) (c sc psc : Point) : HandState :=
  mkHand (detected h) (landmarks h) c sc psc
         (isPinching h) (pinchStartTime h) (pinchConfirmed h)
         (pinchJustConfirmed h) (pinchJustReleased h)
         (gestureMode h) (prevGestureMode h) (gestureCandidate h)
         (gestureCandidateFrames h).

Definition with_gesture (h : HandState) (mode prev cand : Gesture) (frames : nat)
  : HandState :=
  mkHand (detected h) (landmarks h) (cursor h) (smoothCursor h)
         (prevSmoothCursor h)
         (isPinching h) (pinchStartTime h) (pinchConfirmed h)
         (pinchJustConfirmed h) (pinchJustReleased h)
         mode prev cand frames.

Definition with_pinch (h : HandState) (pinching : bool) (start : R)
  (confirmed justConfirmed justReleased : bool) : HandState :=
  mkHand (detected h) (landmarks h) (cursor h) (smoothCursor h)
         (prevSmoothCursor h)
         pinching start confirmed justConfirmed justReleased
         (gestureMode h) (prevGestureMode h) (gestureCandidate h)
         (gestureCandidateFrames h).

(** [resetOneHand] assigns ten fields; [pinchStartTime] and the three
    cursor points are not among them. *)
Definition resetOneHand (h : HandState) : HandState :=
  mkHand false None (cursor h) (smoothCursor h) (prevSmoothCursor h)
         false (pinchStartTime h) false false false
         GNone GNone GNone 0.

(** The pinch state machine of [processOneHand].  [thumbIndexDist] is the
    distance computed from the landmarks; [nowEngage] and [nowCheck] are
    what [performance.now()] returns at its first and second call site
    (each is read only when its branch runs). *)
Definition pinchMachine (thumbIndexDist nowEngage nowCheck : R) (h : HandState)
  : HandState :=
  let h1 := with_pinch h (isPinching h) (pinchStartTime h) (pinchConfirmed h)
                       false false in
  let wasPinching := isPinching h1 in
  let h2 :=
    if negb wasPinching && Rltb thumbIndexDist PINCH_THRESHOLD then
      with_pinch h1 true nowEngage false
                 (pinchJustConfirmed h1) (pinchJustReleased h1)
    else if wasPinching && Rltb RELEASE_THRESHOLD thumbIndexDist then
      with_pinch h1 false 0 false (pinchJustConfirmed h1)
                 (if pinchConfirmed h1 then true else pinchJustReleased h1)
    else h1 in
  if isPinching h2 && negb (pinchConfirmed h2) then
    let elapsed := nowCheck - pinchStartTime h2 in
    if Rleb PINCH_DEBOUNCE_MS elapsed then
      with_pinch h2 (isPinching h2) (pinchStartTime h2) true true
                 (pinchJustReleased h2)
    else h2
  else h2.

(** [processOneHand]; [None] is a [null] landmark list. *)
Definition processOneHand (h : HandState) (lms : option (list Point))
  (canvasWidth canvasHeight nowEngage nowCheck : R) : HandState :=
  match lms with
  | None => resetOneHand h
  | Some lm =>
    if (List.length lm <? 21)%nat then resetOneHand h
    else
      let h1 := with_detection h true (Some lm) in
      let indexTip := at_index lm INDEX_TIP in
      let rawX := (1 - px indexTip) * canvasWidth in
      let rawY := py indexTip * canvasHeight in
      let h2 :=
        with_cursors h1
          (mkPoint rawX rawY)
          (mkPoint (smooth rawX (px (smoothCursor h1)) SMOOTHING_FACTOR)
                   (smooth rawY (py (smoothCursor h1)) SMOOTHING_FACTOR))
          (mkPoint (px (smoothCursor h1)) (py (smoothCursor h1))) in
      let rawGesture := classifyGesture lm in
      let h3 :=
        if Gesture_eqb rawGesture (gestureCandidate h2) then
          with_gesture h2 (gestureMode h2) (prevGestureMode h2)
                       (gestureCandidate h2) (S (gestureCandidateFrames h2))
        else
          with_gesture h2 (gestureMode h2) (prevGestureMode h2) rawGesture 1 in
      let h4 :=
        with_gesture h3 (gestureMode h3) (gestureMode h3)
                     (gestureCandidate h3) (gestureCandidateFrames h3) in
      let h5 :=
        if (GESTURE_CONFIRM_FRAMES <=? gestureCandidateFrames h4)%nat then
          with_gesture h4 (gestureCandidate h4) (prevGestureMode h4)
                       (gestureCandidate h4) (gestureCandidateFrames h4)
        else h4 in
      pinchMachine (dist (at_index lm THUMB_TIP) (at_index lm INDEX_TIP))
                   nowEngage nowCheck h5
  end.

(** One frame of input to the pinch state machine. *)
Record PinchFrame := mkFrame {
  thumbIndexDist : R;
  nowEngage : R;
  nowCheck : R
}.

Definition pinchFrame (f : PinchFrame) (h : HandState) : HandState :=
  pinchMachine (thumbIndexDist f) (nowEngage f) (nowCheck f) h.

(** The hand states after each frame of a sequence, in order. *)
Fixpoint pinchTrace (fs : list PinchFrame) (h : HandState) : list HandState :=
  match fs with
  | [] => []
  | f :: fs' => pinchFrame f h :: pinchTrace fs' (pinchFrame f h)
  end.

(** Number of frames of a trace on which [pinchJustConfirmed] is set. *)
Definition confirmEdges (hs : list HandState) : nat :=
  List.length (filter pinchJustConfirmed hs).

(** [elapsed >= PINCH_DEBOUNCE_MS] for a pinch that started at [start]. *)
Definition debounced (start : R) (f : PinchFrame) : Prop :=
  PINCH_DEBOUNCE_MS <= nowCheck f - start.

(** The hand state after a whole sequence of frames. *)
Definition pinchRun (fs : list PinchFrame) (h : HandState) : HandState :=
  fold_left (fun s f => pinchFrame f s) fs h.

(** The pinch has not been let go: the distance has not risen above the
    release threshold. *)
Definition held (f : PinchFrame) : Prop :=
  thumbIndexDist f <= RELEASE_THRESHOLD.

Definition unconfirmed (h : HandState) : Prop :=
  pinchConfirmed h = false /\ pinchJustConfirmed h = false.

(** ** gestureEngine.js: two-hand combos and the public interface *)

(** The strings ['none'], ['zoom'], ['pan'], ['link'] of [twoHand.mode]. *)
Inductive TwoHandMode := THNone | THZoom | THPan | THLink.

Record TwoHand := mkTwoHand {
  th_active : bool;
  th_mode : TwoHandMode;
  interHandDist : R;
  prevInterHandDist : R;
  zoomFactor : R;
  midpoint : Point;
  prevMidpoint : Point;
  panDelta : Point
}.

(** The strings ['idle'], ['single_right'], ['single_left'],
    ['two_hand_zoom'], ['two_hand_pan'], ['two_hand_link']. *)
Inductive InteractionMode :=
| Idle | SingleRight | SingleLeft | TwoHandZoom | TwoHandPan | TwoHandLink.

(** The module state of the gesture engine. *)
Record Engine := mkEngine {
  rightHand : HandState;
  leftHand : HandState;
  twoHand : TwoHand;
  interactionMode : InteractionMode
}.


(** [resetTwoHand] assigns every field. *)
Definition resetTwoHand (t : TwoHand) : TwoHand :=
  mkTwoHand false THNone 0 0 1 (mkPoint 0 0) (mkPoint 0 0) (mkPoint 0 0).

Definition isOpen (g : Gesture) : bool :=
  match g with GOpen => true | _ => false end.

(** [processTwoHandCombos], on the two hand states of the frame.  The zoom
    branch leaves [panDelta] and the pan branch leaves [zoomFactor] as
    they were. *)
Definition processTwoHandCombos (r l : HandState) (t : TwoHand) : TwoHand :=
  if negb (detected r) || negb (detected l) then resetTwoHand t
  else
    let rCursor := smoothCursor r in
    let lCursor := smoothCursor l in
    let prevDist := interHandDist t in
    let curDist :=
      sqrt ((px rCursor - px lCursor) ^ 2 + (py rCursor - py lCursor) ^ 2) in
    let prevMid := midpoint t in
    let mid := mkPoint ((px rCursor + px lCursor) / 2)
                       ((py rCursor + py lCursor) / 2) in
    let bothPinching := pinchConfirmed r && pinchConfirmed l in
    let bothOpen := isOpen (gestureMode r) && isOpen (gestureMode l) in
    if bothPinching then
      mkTwoHand true THZoom curDist prevDist
                (if Rltb 10 prevDist
                 then 1 + (curDist / prevDist - 1) * (6 / 10)
                 else 1)
                mid prevMid (panDelta t)
    else if bothOpen then
      mkTwoHand true THPan curDist prevDist (zoomFactor t) mid prevMid
                (if Req_dec_T (px prevMid) 0
                 then if Req_dec_T (py prevMid) 0
                      then mkPoint 0 0
                      else mkPoint (px mid - px prevMid) (py mid - py prevMid)
                 else mkPoint (px mid - px prevMid) (py mid - py prevMid))
    else
      mkTwoHand false THNone curDist prevDist 1 mid prevMid (mkPoint 0 0).

Definition isNone (g : Gesture) : bool :=
  match g with GNone => true | _ => false end.

Definition resolveInteractionMode (r l : HandState) (t : TwoHand)
  : InteractionMode :=
  match (if th_active t
         then match th_mode t with
              | THZoom => Some TwoHandZoom
              | THPan => Some TwoHandPan
              | _ => None
              end
         else None) with
  | Some m => m
  | None =>
      if detected r && negb (isNone (gestureMode r)) then SingleRight
      else if detected l && negb (isNone (gestureMode l)) then SingleLeft
      else Idle
  end.

(** The part of the tracker's results that is read: the landmark arrays
    and, by index, the handedness labels.  An absent array is [None] (read
    as the empty array); an absent entry or label is [None] (read as the
    empty string). *)
Record Results := mkResults {
  multiHandLandmarks : option (list (list Point));
  multiHandedness : option (list (option string))
}.

Definition labelAt (handedness : list (option string)) (i : nat) : string :=
  match nth i handedness None with Some s => s | None => "" end.

(** The loop over the hands, from index [i]. *)
Fixpoint assignFrom (i : nat) (lms : list (list Point))
  (handedness : list (option string))
  (rightLm leftLm : option (list Point))
  : option (list Point) * option (list Point) :=
  match lms with
  | [] => (rightLm, leftLm)
  | lm :: rest =>
      let label := labelAt handedness i in
      if String.eqb label "Left" then
        assignFrom (S i) rest handedness (Some lm) leftLm
      else if String.eqb label "Right" then
        assignFrom (S i) rest handedness rightLm (Some lm)
      else assignFrom (S i) rest handedness rightLm leftLm
  end.

(** The landmarks given to the right and to the left role. *)
Definition assignHands (results : option Results)
  : option (list Point) * option (list Point) :=
  let lms := match results with
             | Some r => match multiHandLandmarks r with
                         | Some l => l | None => [] end
             | None => [] end in
  let handedness := match results with
                    | Some r => match multiHandedness r with
                                | Some l => l | None => [] end
                    | None => [] end in
  match assignFrom 0 lms handedness None None with
  | (None, None) =>
      match lms with
      | [only] => (Some only, None)
      | _ => (None, None)
      end
  | assigned => assigned
  end.

(** [processAllHands]; the four clock readings are those of the calls of
    [performance.now()] in the right and in the left hand's processing. *)
Definition processAllHands (results : option Results)
  (canvasWidth canvasHeight : R) (nowR1 nowR2 nowL1 nowL2 : R) (e : Engine)
  : Engine :=
  let (rightLm, leftLm) := assignHands results in
  let r := processOneHand (rightHand e) rightLm canvasWidth canvasHeight
                          nowR1 nowR2 in
  let l := processOneHand (leftHand e) leftLm canvasWidth canvasHeight
                          nowL1 nowL2 in
  let t := processTwoHandCombos r l (twoHand e) in
  mkEngine r l t (resolveInteractionMode r l t).

Definition resetAllHands (e : Engine) : Engine :=
  mkEngine (resetOneHand (rightHand e)) (resetOneHand (leftHand e))
           (resetTwoHand (twoHand e)) Idle.

(** The snapshot of one hand in [getMultiHandState]. *)
Record HandView := mkHandView {
  hv_detected : bool;
  hv_cursor : Point;
  hv_prevCursor : Point;
  hv_cursorDelta : Point;
  hv_gestureMode : Gesture;
  hv_isPinching : bool;
  hv_pinchConfirmed : bool;
  hv_pinchJustConfirmed : bool;
  hv_pinchJustReleased : bool;
  hv_landmarks : option (list Point)
}.








(** One valid frame of one hand: at least 21 landmarks and the clock. *)
Record HandFrame := mkHandFrame {
  hf_landmarks : list Point;
  hf_now1 : R;
  hf_now2 : R
}.

Definition handFrame (canvasWidth canvasHeight : R) (f : HandFrame)
  (h : HandState) : HandState :=
  processOneHand h (Some (hf_landmarks f)) canvasWidth canvasHeight
                 (hf_now1 f) (hf_now2 f).

Definition handRun (canvasWidth canvasHeight : R) (fs : list HandFrame)
  (h : HandState) : HandState :=
  fold_left (fun s f => handFrame canvasWidth canvasHeight f s) fs h.

(** The pose [classifyGesture] reads off a frame, and what makes the
    frame pass the length test of [processOneHand]. *)
Definition rawGesture (f : HandFrame) : Gesture :=
  classifyGesture (hf_landmarks f).

Definition valid_frame (f : HandFrame) : Prop :=
  (21 <= List.length (hf_landmarks f))%nat.

(** The raw pose of every frame differs from the one before it, [prev]
    being the pose before the first frame. *)
Fixpoint changes_every_frame (prev : Gesture) (fs : list HandFrame) : Prop :=
  match fs with
  | [] => True
  | f :: fs' => rawGesture f <> prev /\ changes_every_frame (rawGesture f) fs'
  end.

(** ** exportManager.js: the project document *)

Definition PROJECT_VERSION : string := "1.0".

(** The values [JSON.stringify] is given. *)
#[local] Unset Elimination Schemes.
Inductive JSON :=
| JNumber (r : R)
| JString (s : string)
| JArray (items : list JSON)
| JObject (fields : list (string * JSON)).
#[local] Set Elimination Schemes.

Definition keys (j : JSON) : list string :=
  match j with
  | JObject fields => map fst fields
  | _ => []
  end.

Definition noteRecord (n : Note) : JSON :=
  JObject [ ("id", JString (n_id n));
            ("x", JNumber (n_x n));
            ("y", JNumber (n_y n));
            ("width", JNumber (n_width n));
            ("height", JNumber (n_height n));
            ("text", JString (n_text n));
            ("color", JString (n_color n)) ].

Definition linkRecord (l : Link) : JSON :=
  JObject [ ("id", JString (l_id l));
            ("from", JString (l_from l));
            ("to", JString (l_to l)) ].

(** The object literal [project]; [isoNow] is [new Date().toISOString()]. *)
Definition project (isoNow : string) (w : State) : JSON :=
  JObject [ ("version", JString PROJECT_VERSION);
            ("timestamp", JString isoNow);
            ("workspace",
               JObject [ ("zoom", JNumber (zoom w));
                         ("offsetX", JNumber (offsetX w));
                         ("offsetY", JNumber (offsetY w)) ]);
            ("notes", JArray (map noteRecord (notes w)));
            ("links", JArray (map linkRecord (links w))) ].

(** What [triggerDownload] is handed: the document behind the blob and the
    file name. *)
Record Download := mkDownload {
  dl_document : JSON;
  dl_filename : string
}.

(** [exportProjectJSON]; [stamp] is the result of [formatTimestamp()].
    The function has one exit, [return true]. *)
Definition exportProjectJSON (isoNow stamp : string) (w : State)
  : bool * Download :=
  let doc := project isoNow w in
  (true,
   mkDownload doc (String.append "visualnote_" (String.append stamp ".json"))).

Definition field (k : string) (j : JSON) : option JSON :=
  match j with
  | JObject fields =>
      match find (fun kv => String.eqb (fst kv) k) fields with
      | Some kv => Some (snd kv)
      | None => None
      end
  | _ => None
  end.

(** ** workspaceState.js: zoom to fit *)






(** ** noteModel.js: spatial queries *)

(** The test of [hitTestNote] on one note. *)
Definition containsPoint (worldX worldY : R) (n : Note) : bool :=
  Rleb (n_x n) worldX && Rleb worldX (n_x n + n_width n)
  && Rleb (n_y n) worldY && Rleb worldY (n_y n + n_height n).

(** The loop runs from the last index down to 0 and returns the first
    note that passes the test. *)
Definition hitTestNote (worldX worldY : R) (w : State) : option Note :=
  find (containsPoint worldX worldY) (rev (notes w)).


(** ** linkModel.js: link hit testing *)




(** ** exportManager.js: clean PNG export and time stamps *)








(** ** main.js: what a right-hand pinch and fist do to the workspace *)

Definition set_linkSourceId (w : State) (src : option string) : State :=
  mkState (notes w) (links w) (zoom w) (offsetX w) (offsetY w)
          (selectedNoteIds w) src (noteCounter w) (linkCounter w).

(** [!selection.linkSourceId]: [null] and the empty string are falsy. *)
Definition noLinkSource (w : State) : bool :=
  match linkSourceId w with
  | None => true
  | Some s => String.eqb s ""
  end.

(** [handleRightPinch]; [tool] is the string [getActiveTool()] returned
    and [noteUnderCursor] the result of the hit test.  Beside the
    workspace, the note handed to [openEditor], if any, is returned. *)
Definition handleRightPinch (rh : HandView) (tool : string)
  (worldCursor : Point) (noteUnderCursor : option Note) (w : State)
  : State * option Note :=
  if negb (hv_pinchJustConfirmed rh) then (w, None)
  else if String.eqb tool "select" then
    match noteUnderCursor with
    | Some n =>
        if n_selected n then (w, Some n)
        else (selectNote (n_id n) false w, None)
    | None => (clearSelection w, None)
    end
  else if String.eqb tool "note" then
    (snd (createNote (px worldCursor) (py worldCursor) (Some "New Note") w),
     None)
  else if String.eqb tool "link" then
    match noteUnderCursor with
    | Some n =>
        if noLinkSource w then
          (selectNote (n_id n) false (set_linkSourceId w (Some (n_id n))),
           None)
        else
          let src := match linkSourceId w with Some s => s | None => "" end in
          (clearSelection
             (set_linkSourceId (snd (createLink src (n_id n) w)) None),
           None)
    | None => (clearSelection (set_linkSourceId w None), None)
    end
  else if String.eqb tool "delete" then
    match noteUnderCursor with
    | Some n => (deleteSelectedNotes (selectNote (n_id n) false w), None)
    | None => (w, None)
    end
  else (w, None).




(** ** Specification vocabulary for hit testing *)

(** The world point lies in the rectangle of the note, borders included. *)
Definition inside (worldX worldY : R) (n : Note) : Prop :=
  n_x n <= worldX <= n_x n + n_width n
  /\ n_y n <= worldY <= n_y n + n_height n.


(** ** Specification vocabulary for links *)

(** Some link joins [a] and [b], in either direction. *)
Definition linked (a b : string) (w : State) : Prop :=
  exists l, In l (links w)
            /\ ((l_from l = a /\ l_to l = b) \/ (l_from l = b /\ l_to l = a)).

(** No unordered pair of ids is joined by two links. *)
Definition links_deduplicated (w : State) : Prop :=
  forall a b, (links_between a b w <= 1)%nat.

(** ** Well-formed workspaces *)

(** What the note and selection operations maintain together: the flags
    agree with the selected-id list, ids are pairwise distinct and were
    all issued by the counter, and only ids of present notes are
    selected. *)
Record well_formed (w : State) : Prop := mkWellFormed {
  wf_synced : selection_synced w;
  wf_nodup : NoDup (map n_id (notes w));
  wf_issued : forall n, In n (notes w) ->
      exists k, (1 <= k <= noteCounter w)%nat /\ n_id n = noteId k;
  wf_selected : forall id, In id (selectedNoteIds w) ->
      In id (map n_id (notes w))
}.

(** Number of [createNote] calls in a sequence of operations. *)
Definition creations (ops : list Op) : nat :=
  List.length (filter isCreateNote ops).

(** ** Consistency of reachable workspaces *)

(** A note as [createNote] made it, under a counter value [c]: 200 x 120,
    with the id and the palette colour of its creation rank. *)
Definition note_issued (c : nat) (n : Note) : Prop :=
  n_width n = 200 /\ n_height n = 120
  /\ exists k, (1 <= k <= c)%nat /\ n_id n = noteId k
               /\ n_color n = nth (k mod 8) NOTE_COLORS "".

Record notes_consistent (w : State) : Prop := mkNotesConsistent {
  nc_distinct : NoDup (map n_id (notes w));
  nc_issued : Forall (note_issued (noteCounter w)) (notes w);
  nc_selected_once : NoDup (selectedNoteIds w)
}.

(** A link as [createLink] made it, under a counter value [c]. *)
Definition link_issued (c : nat) (l : Link) : Prop :=
  l_from l <> l_to l
  /\ exists k, (1 <= k <= c)%nat /\ l_id l = linkId k.

Record links_consistent (w : State) : Prop := mkLinksConsistent {
  lc_distinct : NoDup (map l_id (links w));
  lc_issued : Forall (link_issued (linkCounter w)) (links w)
}.

(** * Properties *)

(** ** Zoom: clamping and anchor invariance *)

Lemma clampZoom_range (z : R) : MIN_ZOOM <= clampZoom z <= MAX_ZOOM.
Proof.
  unfold clampZoom, MIN_ZOOM, MAX_ZOOM, Rmax, Rmin.
  repeat destruct Rle_dec; lra.
Qed.

Lemma clampZoom_inside (z : R) :
  MIN_ZOOM <= z <= MAX_ZOOM -> clampZoom z = z.
Proof.
  unfold clampZoom, MIN_ZOOM, MAX_ZOOM, Rmax, Rmin.
  repeat destruct Rle_dec; lra.
Qed.

Lemma clampZoom_above (z : R) : MAX_ZOOM <= z -> clampZoom z = MAX_ZOOM.
Proof.
  unfold clampZoom, MIN_ZOOM, MAX_ZOOM, Rmax, Rmin.
  repeat destruct Rle_dec; lra.
Qed.

Lemma rezoom_zoom w z cx cy : zoom (rezoom w z cx cy) = z.
Proof. reflexivity. Qed.

Lemma rezoom_anchor w z cx cy :
  zoom w <> 0 -> z <> 0 ->
  worldToScreen (rezoom w z cx cy)
    (px (screenToWorld w cx cy)) (py (screenToWorld w cx cy)) = mkPoint cx cy.
Proof.
  intros Hold Hnew.
  unfold worldToScreen, screenToWorld, rezoom; cbn.
  f_equal; field; auto.
Qed.

Lemma same_view_anchor w cx cy :
  zoom w <> 0 ->
  worldToScreen w (px (screenToWorld w cx cy)) (py (screenToWorld w cx cy))
  = mkPoint cx cy.
Proof.
  intros Hz. unfold worldToScreen, screenToWorld; cbn.
  f_equal; field; auto.
Qed.

Lemma applyZoom_range d cx cy w :
  zoom_in_range w -> zoom_in_range (applyZoom d cx cy w).
Proof.
  intros H. unfold applyZoom.
  destruct Req_dec_T; [exact H|].
  unfold zoom_in_range. rewrite rezoom_zoom. apply clampZoom_range.
Qed.

Lemma applyZoomFactor_range f cx cy w :
  zoom_in_range w -> zoom_in_range (applyZoomFactor f cx cy w).
Proof.
  intros H. unfold applyZoomFactor.
  destruct Rlt_dec; [exact H|].
  unfold zoom_in_range. rewrite rezoom_zoom. apply clampZoom_range.
Qed.

Lemma zoomCalls_range cs : forall w,
  zoom_in_range w -> zoom_in_range (zoomCalls cs w).
Proof.
  induction cs as [|c cs IH]; intros w H; [exact H|].
  apply IH. destruct c; [apply applyZoom_range | apply applyZoomFactor_range];
    exact H.
Qed.


Lemma applyZoom_zoom d cx cy w :
  zoom (applyZoom d cx cy w)
  = clampZoom (zoom w * (if Rlt_dec 0 d then 108 / 100 else 92 / 100)).
Proof.
  unfold applyZoom. destruct Req_dec_T as [E|E]; [now rewrite E|].
  apply rezoom_zoom.
Qed.

Lemma pow108_range (k : nat) :
  (k <= 14)%nat -> MIN_ZOOM <= (108 / 100) ^ k <= MAX_ZOOM.
Proof.
  intros Hk. unfold MIN_ZOOM, MAX_ZOOM.
  assert (H1 : 1 <= (108 / 100) ^ k) by (apply pow_R1_Rle; lra).
  assert (H2 : (108 / 100) ^ k <= (108 / 100) ^ 14)
    by (apply Rle_pow; [lra | exact Hk]).
  assert (H3 : (108 / 100) ^ 14 < 3) by (simpl; lra).
  lra.
Qed.

Lemma pow108_saturates : MAX_ZOOM <= (108 / 100) ^ 15.
Proof. unfold MAX_ZOOM. simpl. lra. Qed.

Lemma zoomIn_at_max cs : forall w,
  Forall isZoomIn cs -> zoom w = MAX_ZOOM -> zoom (zoomCalls cs w) = MAX_ZOOM.
Proof.
  induction cs as [|c cs IH]; intros w Hall Hz; [exact Hz|].
  inversion Hall as [|c' cs' Hc Hcs]; subst.
  apply IH; [exact Hcs|].
  destruct c as [d cx cy|f cx cy]; [|contradiction].
  cbn in Hc |- *. rewrite applyZoom_zoom.
  destruct Rlt_dec; [|contradiction].
  apply clampZoom_above. rewrite Hz. unfold MAX_ZOOM. lra.
Qed.

(** Zoom after a run of zoom-in steps that starts at [1.08 ^ k]. *)
Lemma zoomIn_progress cs : forall k w,
  Forall isZoomIn cs -> zoom w = (108 / 100) ^ k -> (k <= 14)%nat ->
  zoom (zoomCalls cs w)
  = if (k + List.length cs <=? 14)%nat then (108 / 100) ^ (k + List.length cs)
    else MAX_ZOOM.
Proof.
  induction cs as [|c cs IH]; intros k w Hall Hz Hk.
  - cbn. rewrite Nat.add_0_r.
    destruct (Nat.leb_spec k 14); [exact Hz | lia].
  - inversion Hall as [|c' cs' Hc Hcs]; subst.
    destruct c as [d cx cy|f cx cy]; [|contradiction].
    cbn in Hc. cbn [zoomCalls fold_left zoomCall].
    change (fold_left (fun s c => zoomCall c s) cs (applyZoom d cx cy w))
      with (zoomCalls cs (applyZoom d cx cy w)).
    assert (Hstep : zoom (applyZoom d cx cy w)
                    = clampZoom ((108 / 100) ^ (S k))).
    { rewrite applyZoom_zoom. destruct Rlt_dec; [|contradiction].
      rewrite Hz. f_equal. simpl. lra. }
    destruct (Nat.eq_dec k 14) as [E|E].
    + subst k.
      rewrite clampZoom_above in Hstep by apply pow108_saturates.
      rewrite (zoomIn_at_max cs _ Hcs Hstep).
      destruct (Nat.leb_spec (14 + List.length (ZoomStep d cx cy :: cs)) 14);
        [cbn in *; lia | reflexivity].
    + rewrite clampZoom_inside in Hstep by (apply pow108_range; lia).
      rewrite (IH (S k) _ Hcs Hstep) by lia.
      cbn [List.length]. replace (k + S (List.length cs))%nat
        with (S k + List.length cs)%nat by lia.
      reflexivity.
Qed.

(** C1. Anchor invariance of zoom: whenever the zoom of the workspace
    lies in [0.3, 3.0], the world point under the screen anchor
    [(cx, cy)] before [applyZoom delta cx cy] is mapped back to
    [(cx, cy)] by [worldToScreen] after the call, for every direction
    [delta], every offset and every anchor; the same holds after
    [applyZoomFactor factor cx cy] for every factor, in particular every
    positive one. *)
Theorem zoom_anchor_invariance :
  forall (w : State) (delta factor cx cy : R),
    zoom_in_range w ->
    let world := screenToWorld w cx cy in
    worldToScreen (applyZoom delta cx cy w) (px world) (py world)
      = mkPoint cx cy
    /\ worldToScreen (applyZoomFactor factor cx cy w) (px world) (py world)
      = mkPoint cx cy.
Proof.
  intros w delta factor cx cy Hr world. subst world.
  assert (Hz : zoom w <> 0) by (unfold zoom_in_range, MIN_ZOOM in Hr; lra).
  assert (Hc : forall z, clampZoom z <> 0).
  { intros z. pose proof (clampZoom_range z) as H.
    unfold MIN_ZOOM in H. lra. }
  split.
  - unfold applyZoom. destruct Req_dec_T.
    + apply same_view_anchor; exact Hz.
    + apply rezoom_anchor; auto.
  - unfold applyZoomFactor. destruct Rlt_dec.
    + apply same_view_anchor; exact Hz.
    + apply rezoom_anchor; auto.
Qed.

Lemma zoom_anchor_invariance_witness :
  let w := applyPan 40 (-25) initial in
  let world := screenToWorld w 320 240 in
  zoom_in_range w
  /\ worldToScreen (applyZoom 1 320 240 w) (px world) (py world)
     = mkPoint 320 240
  /\ worldToScreen (applyZoomFactor (3 / 2) 320 240 w) (px world) (py world)
     = mkPoint 320 240.
Proof.
  assert (H : zoom_in_range (applyPan 40 (-25) initial))
    by (unfold zoom_in_range, MIN_ZOOM, MAX_ZOOM; simpl; lra).
  split; [exact H|].
  exact (zoom_anchor_invariance (applyPan 40 (-25) initial) 1 (3 / 2) 320 240 H).
Defined.

(** C2. Zoom clamping: from a workspace whose zoom lies in [0.3, 3.0],
    every finite sequence of [applyZoom] and [applyZoomFactor] calls
    leaves the zoom in [0.3, 3.0]; from zoom 1.0, a run of zoom-in steps
    has zoom [1.08 ^ n] while [n <= 14] and exactly 3.0 from the fifteenth
    step on; and at zoom 3.0 a zoom-in call returns the workspace
    unchanged. *)
Theorem zoom_clamping :
  (forall (w : State) (cs : list ZoomCall),
      zoom_in_range w -> zoom_in_range (zoomCalls cs w))
  /\ (forall (w : State) (cs : list ZoomCall),
      zoom w = 1 -> Forall isZoomIn cs ->
      ((List.length cs <= 14)%nat ->
         zoom (zoomCalls cs w) = (108 / 100) ^ List.length cs)
      /\ ((15 <= List.length cs)%nat -> zoom (zoomCalls cs w) = MAX_ZOOM))
  /\ (forall (w : State) (delta cx cy : R),
      zoom w = MAX_ZOOM -> 0 < delta -> applyZoom delta cx cy w = w).
Proof.
  split; [|split].
  - intros w cs. apply zoomCalls_range.
  - intros w cs Hz Hall.
    pose proof (zoomIn_progress cs 0 w Hall) as H.
    cbn [Nat.add pow] in H. specialize (H Hz ltac:(lia)).
    split; intros Hlen; rewrite H.
    + destruct (Nat.leb_spec (List.length cs) 14); [reflexivity | lia].
    + destruct (Nat.leb_spec (List.length cs) 14); [lia | reflexivity].
  - intros w delta cx cy Hz Hd. unfold applyZoom.
    destruct Req_dec_T as [E|E]; [reflexivity|].
    exfalso. apply E. destruct Rlt_dec; [|contradiction].
    rewrite Hz. apply clampZoom_above. unfold MAX_ZOOM. lra.
Qed.

Lemma zoom_clamping_witness :
  zoom_in_range (zoomCalls [ZoomStep 1 10 20; ZoomBy (1 / 2) 0 0] initial)
  /\ zoom (zoomCalls (repeat (ZoomStep 1 100 100) 15) initial) = MAX_ZOOM
  /\ applyZoom 1 100 100 (set_view initial MAX_ZOOM 0 0)
     = set_view initial MAX_ZOOM 0 0.
Proof.
  destruct zoom_clamping as (Hrange & Hsat & Hfix).
  split; [|split].
  - apply Hrange. unfold zoom_in_range, MIN_ZOOM, MAX_ZOOM. simpl. lra.
  - apply (Hsat initial (repeat (ZoomStep 1 100 100) 15)).
    + reflexivity.
    + repeat constructor; simpl; lra.
    + simpl. lia.
  - apply Hfix; [reflexivity | lra].
Defined.

(** ** Links: creation and de-duplication *)

Lemma connects_spec a b l :
  connects a b l = true
  <-> (l_from l = a /\ l_to l = b) \/ (l_from l = b /\ l_to l = a).
Proof.
  unfold connects.
  rewrite orb_true_iff, !andb_true_iff, !String.eqb_eq. tauto.
Qed.

Lemma connects_sym a b l : connects a b l = connects b a l.
Proof. unfold connects. apply orb_comm. Qed.

Lemma existsb_connects_linked a b w :
  existsb (connects a b) (links w) = true <-> linked a b w.
Proof.
  unfold linked. rewrite existsb_exists.
  split; intros [l [Hin Hc]]; exists l; split; auto;
    now apply connects_spec.
Qed.

Lemma links_between_pos a b w :
  (1 <= links_between a b w)%nat <-> linked a b w.
Proof.
  rewrite <- existsb_connects_linked. unfold links_between.
  induction (links w) as [|l ls IH]; cbn.
  - split; [lia | discriminate].
  - destruct (connects a b l); cbn; [split; auto; lia | exact IH].
Qed.

Lemma links_between_sym a b w : links_between a b w = links_between b a w.
Proof.
  unfold links_between. f_equal. apply filter_ext.
  intros l. apply connects_sym.
Qed.

Lemma createLink_self a w : createLink a a w = (None, w).
Proof. unfold createLink. now rewrite String.eqb_refl. Qed.

Lemma createLink_duplicate a b w :
  linked a b w -> createLink a b w = (None, w).
Proof.
  intros H. apply existsb_connects_linked in H. unfold createLink.
  destruct (String.eqb a b); [reflexivity|]. now rewrite H.
Qed.

Lemma createLink_fresh a b w :
  a <> b -> ~ linked a b w ->
  createLink a b w
  = (Some (mkLink (linkId (S (linkCounter w))) a b),
     mkState (notes w)
             (links w ++ [mkLink (linkId (S (linkCounter w))) a b])
             (zoom w) (offsetX w) (offsetY w)
             (selectedNoteIds w) (linkSourceId w) (noteCounter w)
             (S (linkCounter w))).
Proof.
  intros Hab Hno. unfold createLink.
  apply String.eqb_neq in Hab. rewrite Hab.
  destruct (existsb (connects a b) (links w)) eqn:E; [|reflexivity].
  exfalso. apply Hno. now apply existsb_connects_linked.
Qed.

Lemma linked_sym a b w : linked a b w -> linked b a w.
Proof. intros [l [Hin H]]. exists l. tauto. Qed.

Lemma filter_length_app {A} (p : A -> bool) (l1 l2 : list A) :
  List.length (filter p (l1 ++ l2))
  = (List.length (filter p l1) + List.length (filter p l2))%nat.
Proof. now rewrite filter_app, length_app. Qed.

Lemma createLink_links_between a b x y w :
  links_deduplicated w ->
  (links_between a b (snd (createLink x y w)) <= 1)%nat.
Proof.
  intros Hd. unfold createLink.
  destruct (String.eqb x y) eqn:Exy; [apply Hd|].
  destruct (existsb (connects x y) (links w)) eqn:Eex; [apply Hd|].
  pose proof (Hd a b) as Hab.
  unfold links_between in Hab |- *. cbn [snd links].
  rewrite filter_length_app. cbn [filter].
  destruct (connects a b (mkLink (linkId (S (linkCounter w))) x y)) eqn:Ec;
    cbn [List.length]; [|lia].
  enough (H0 : List.length (filter (connects a b) (links w)) = 0%nat) by lia.
  destruct (List.length (filter (connects a b) (links w))) eqn:En; [reflexivity|].
  exfalso.
  assert (Hl : linked a b w).
  { apply links_between_pos. unfold links_between. lia. }
  assert (Hxy : linked x y w).
  { apply connects_spec in Ec. cbn in Ec.
    destruct Ec as [[-> ->]|[-> ->]]; [exact Hl | now apply linked_sym]. }
  apply existsb_connects_linked in Hxy. congruence.
Qed.

(** ** Cascading delete *)

Lemma deleteNote_notes id w :
  notes (deleteNote id w)
  = filter (fun n => negb (String.eqb (n_id n) id)) (notes w).
Proof. reflexivity. Qed.

Lemma deleteNote_links id w :
  links (deleteNote id w)
  = filter (fun l => negb (String.eqb (l_from l) id)
                     && negb (String.eqb (l_to l) id)) (links w).
Proof. reflexivity. Qed.

Lemma deleteNote_selected id w :
  selectedNoteIds (deleteNote id w)
  = filter (fun sid => negb (String.eqb sid id)) (selectedNoteIds w).
Proof. reflexivity. Qed.

(** ** Identifiers and list helpers *)

Lemma decimal_inj m n : decimal m = decimal n -> m = n.
Proof.
  unfold decimal. intros H.
  assert (E : Some (Nat.to_uint m) = Some (Nat.to_uint n)).
  { rewrite <- !NilEmpty.usu. now rewrite H. }
  injection E as E.
  rewrite <- (Unsigned.of_to m), <- (Unsigned.of_to n). now rewrite E.
Qed.

Lemma noteId_inj m n : noteId m = noteId n -> m = n.
Proof.
  unfold noteId. cbn [String.append]. intros H.
  injection H as H. now apply decimal_inj.
Qed.

Lemma includes_In l s : includes l s = true <-> In s l.
Proof.
  unfold includes. rewrite existsb_exists. split.
  - intros [x [Hin He]]. apply String.eqb_eq in He. now subst.
  - intros H. exists s. split; [exact H | apply String.eqb_refl].
Qed.

Lemma includes_filter_neq l s id :
  s <> id ->
  includes (filter (fun x => negb (String.eqb x id)) l) s = includes l s.
Proof.
  intros Hne. unfold includes.
  induction l as [|a l IH]; [reflexivity|].
  cbn [filter existsb]. destruct (String.eqb a id) eqn:E; cbn [negb existsb].
  - apply String.eqb_eq in E. subst a.
    apply String.eqb_neq in Hne. now rewrite Hne, IH.
  - now rewrite IH.
Qed.

Lemma includes_filter_self l id :
  includes (filter (fun x => negb (String.eqb x id)) l) id = false.
Proof.
  destruct (includes _ id) eqn:E; [|reflexivity].
  apply includes_In, filter_In in E. destruct E as [_ E].
  now rewrite String.eqb_refl in E.
Qed.

Lemma fold_left_preserves {A B} (P : A -> Prop) (f : A -> B -> A) (l : list B) :
  (forall a b, P a -> P (f a b)) -> forall a, P a -> P (fold_left f l a).
Proof.
  intros Hf. induction l as [|b l IH]; intros a Ha; [exact Ha|].
  cbn. apply IH, Hf, Ha.
Qed.

Lemma update_first_ids p f ns :
  (forall n, n_id (f n) = n_id n) ->
  map n_id (update_first p f ns) = map n_id ns.
Proof.
  intros Hf. induction ns as [|n ns IH]; [reflexivity|].
  cbn. destruct (p n); cbn; [now rewrite Hf | now rewrite IH].
Qed.

Lemma update_first_In id f ns n' :
  NoDup (map n_id ns) ->
  In n' (update_first (has_id id) f ns) ->
  (In n' ns /\ n_id n' <> id)
  \/ (exists n0, In n0 ns /\ n_id n0 = id /\ n' = f n0).
Proof.
  induction ns as [|n ns IH]; intros Hnd Hin; [contradiction|].
  cbn in Hnd. inversion Hnd as [|x xs Hx Hxs]; subst.
  cbn in Hin. destruct (has_id id n) eqn:E.
  - apply String.eqb_eq in E. destruct Hin as [<-|Hin].
    + right. exists n. cbn. auto.
    + left. split; [now right|].
      intros Heq. apply Hx. rewrite E, <- Heq. now apply in_map.
  - destruct Hin as [<-|Hin].
    + left. split; [now left|]. now apply String.eqb_neq.
    + destruct (IH Hxs Hin) as [[H1 H2]|[n0 [H1 [H2 H3]]]].
      * left. split; [now right | exact H2].
      * right. exists n0. split; [now right | auto].
Qed.

Lemma distinct_ids_filter (keep : Note -> bool) (ns : list Note) :
  NoDup (map n_id ns) -> NoDup (map n_id (filter keep ns)).
Proof.
  intros Hnd. induction ns as [|n ns IH]; [exact Hnd|].
  cbn in Hnd. apply NoDup_cons_iff in Hnd. destruct Hnd as [Hfresh Hrest].
  cbn. destruct (keep n); [|now apply IH].
  cbn. constructor; [|now apply IH].
  intros Hin. apply Hfresh. apply in_map_iff in Hin.
  destruct Hin as [m [Hm Hin]]. apply filter_In in Hin.
  rewrite <- Hm. apply in_map. tauto.
Qed.

Lemma filter_filter_length {A} (p q : A -> bool) (l : list A) :
  (List.length (filter p (filter q l)) <= List.length (filter p l))%nat.
Proof.
  induction l as [|a l IH]; [cbn; lia|].
  cbn. destruct (q a), (p a) eqn:E; cbn; rewrite ?E; cbn; lia.
Qed.

(** ** Preservation of well-formedness *)

Lemma well_formed_initial : well_formed initial.
Proof.
  constructor; cbn; try contradiction.
  - intros n [].
  - constructor.
Qed.

Lemma well_formed_frame w w' :
  notes w' = notes w -> selectedNoteIds w' = selectedNoteIds w ->
  noteCounter w' = noteCounter w -> well_formed w -> well_formed w'.
Proof.
  intros Hn Hs Hc [H1 H2 H3 H4].
  constructor; unfold selection_synced; rewrite ?Hn, ?Hs, ?Hc; assumption.
Qed.

Lemma map_id_set_selected (g : Note -> bool) ns :
  map n_id (map (fun n => set_selected (g n) n) ns) = map n_id ns.
Proof. rewrite map_map. now apply map_ext. Qed.

Lemma clearSelection_wf w : well_formed w -> well_formed (clearSelection w).
Proof.
  intros [H1 H2 H3 H4]. constructor; cbn.
  - intros n Hin. cbn in Hin. apply in_map_iff in Hin.
    destruct Hin as [n0 [<- _]]. reflexivity.
  - now rewrite (map_id_set_selected (fun _ => false)).
  - intros n Hin. apply in_map_iff in Hin. destruct Hin as [n0 [<- Hin]].
    cbn. now apply H3.
  - contradiction.
Qed.

Lemma createNote_wf wx wy t w :
  well_formed w -> well_formed (snd (createNote wx wy t w)).
Proof.
  intros [H1 H2 H3 H4].
  assert (Hfresh : ~ In (noteId (S (noteCounter w))) (map n_id (notes w))).
  { intros Hin. apply in_map_iff in Hin. destruct Hin as [n [Hid Hin]].
    destruct (H3 n Hin) as [k [Hk Hn]]. rewrite Hn in Hid.
    apply noteId_inj in Hid. lia. }
  constructor; unfold selection_synced;
    cbn [snd createNote notes selectedNoteIds noteCounter].
  - intros n Hin. apply in_app_or in Hin. destruct Hin as [Hin|[<-|[]]].
    + now apply H1.
    + cbn [n_selected n_id].
      destruct (includes (selectedNoteIds w) (noteId (S (noteCounter w))))
        eqn:E; [|reflexivity].
      exfalso. apply Hfresh, H4. now apply includes_In.
  - rewrite map_app. cbn [map n_id].
    apply NoDup_app; [exact H2 | repeat constructor; intros [] |].
    intros id Hin [<-|[]]. now apply Hfresh.
  - intros n Hin. apply in_app_or in Hin. destruct Hin as [Hin|[<-|[]]].
    + destruct (H3 n Hin) as [k [Hk Hn]]. exists k. split; [lia | exact Hn].
    + exists (S (noteCounter w)). split; [lia | reflexivity].
  - intros id Hin. rewrite map_app. apply in_or_app. left. now apply H4.
Qed.

Lemma deleteNote_wf id w : well_formed w -> well_formed (deleteNote id w).
Proof.
  intros [H1 H2 H3 H4]. constructor.
  - intros n Hin. rewrite deleteNote_notes in Hin. apply filter_In in Hin.
    destruct Hin as [Hin Hne]. rewrite deleteNote_selected.
    rewrite includes_filter_neq; [now apply H1|].
    apply String.eqb_neq. now destruct (String.eqb (n_id n) id).
  - rewrite deleteNote_notes. now apply distinct_ids_filter.
  - intros n Hin. rewrite deleteNote_notes in Hin. apply filter_In in Hin.
    now apply H3.
  - intros sid Hin. rewrite deleteNote_selected in Hin.
    apply filter_In in Hin. destruct Hin as [Hin Hne].
    apply H4, in_map_iff in Hin. destruct Hin as [n [Hn Hin]].
    rewrite deleteNote_notes. apply in_map_iff. exists n.
    split; [exact Hn|]. apply filter_In. split; [exact Hin|].
    now rewrite Hn.
Qed.

Lemma deleteSelectedNotes_wf w :
  well_formed w -> well_formed (deleteSelectedNotes w).
Proof.
  intros H. unfold deleteSelectedNotes. apply clearSelection_wf.
  apply (fold_left_preserves well_formed); [|exact H].
  intros a b. apply deleteNote_wf.
Qed.

Lemma selectNote_wf id add w :
  existsb (has_id id) (notes w) = true ->
  well_formed w -> well_formed (selectNote id add w).
Proof.
  intros Hex H. unfold selectNote.
  set (w1 := if add then w else clearSelection w).
  assert (Hw1 : well_formed w1)
    by (subst w1; destruct add; [exact H | now apply clearSelection_wf]).
  assert (Hids : map n_id (notes w1) = map n_id (notes w)).
  { subst w1. destruct add; [reflexivity|].
    cbn. apply (map_id_set_selected (fun _ => false)). }
  destruct Hw1 as [H1 H2 H3 H4].
  set (ids := if includes (selectedNoteIds w1) id then selectedNoteIds w1
              else selectedNoteIds w1 ++ [id]).
  constructor; unfold selection_synced;
    cbn [notes selectedNoteIds noteCounter set_notes set_selectedNoteIds].
  - intros n Hin. apply in_map_iff in Hin. destruct Hin as [n0 [<- _]].
    reflexivity.
  - now rewrite (map_id_set_selected (fun n => includes ids (n_id n))).
  - intros n Hin. apply in_map_iff in Hin. destruct Hin as [n0 [<- Hin]].
    cbn. now apply H3.
  - intros sid Hin.
    rewrite (map_id_set_selected (fun n => includes ids (n_id n))).
    assert (Hcases : In sid (selectedNoteIds w1) \/ sid = id).
    { subst ids. destruct (includes (selectedNoteIds w1) id); [now left|].
      apply in_app_or in Hin. destruct Hin as [Hin|[<-|[]]]; auto. }
    destruct Hcases as [Hs| ->]; [now apply H4|].
    rewrite Hids. apply existsb_exists in Hex. destruct Hex as [n [Hn Hid]].
    apply String.eqb_eq in Hid. subst id. now apply in_map.
Qed.

Lemma deselectNote_wf id w : well_formed w -> well_formed (deselectNote id w).
Proof.
  intros [H1 H2 H3 H4].
  assert (Hids : map n_id (update_first (has_id id) (set_selected false)
                                        (notes w)) = map n_id (notes w))
    by now apply update_first_ids.
  constructor; unfold selection_synced;
    cbn [deselectNote notes selectedNoteIds noteCounter set_notes
         set_selectedNoteIds].
  - intros n Hin. apply update_first_In in Hin; [|exact H2].
    destruct Hin as [[Hin Hne]|[n0 [Hin [Hid ->]]]].
    + rewrite includes_filter_neq by exact Hne. now apply H1.
    + cbn. rewrite Hid. symmetry. apply includes_filter_self.
  - now rewrite Hids.
  - intros n Hin. apply update_first_In in Hin; [|exact H2].
    destruct Hin as [[Hin _]|[n0 [Hin [_ ->]]]]; cbn; now apply H3.
  - intros sid Hin. rewrite Hids. apply filter_In in Hin. now apply H4.
Qed.

(** An in-place update of the note with a given id that leaves [id] and
    [selected] alone, as [moveNote] and [updateNoteText] do. *)
Lemma update_note_wf id f w :
  (forall n, n_id (f n) = n_id n) ->
  (forall n, n_selected (f n) = n_selected n) ->
  well_formed w ->
  well_formed (set_notes w (update_first (has_id id) f (notes w))).
Proof.
  intros Hid Hsel [H1 H2 H3 H4].
  constructor; unfold selection_synced;
    cbn [notes selectedNoteIds noteCounter set_notes].
  - intros n Hin. apply update_first_In in Hin; [|exact H2].
    destruct Hin as [[Hin _]|[n0 [Hin [_ ->]]]]; [now apply H1|].
    rewrite Hid, Hsel. now apply H1.
  - now rewrite update_first_ids.
  - intros n Hin. apply update_first_In in Hin; [|exact H2].
    destruct Hin as [[Hin _]|[n0 [Hin [_ ->]]]]; rewrite ?Hid; now apply H3.
  - intros sid Hin. rewrite update_first_ids by exact Hid. now apply H4.
Qed.

Lemma moveNote_wf id dx dy w : well_formed w -> well_formed (moveNote id dx dy w).
Proof. apply update_note_wf; reflexivity. Qed.

Lemma moveSelectedNotes_wf dx dy w :
  well_formed w -> well_formed (moveSelectedNotes dx dy w).
Proof.
  intros H. unfold moveSelectedNotes.
  apply (fold_left_preserves well_formed); [|exact H].
  intros a b. apply moveNote_wf.
Qed.

Lemma updateNoteText_wf id t w :
  well_formed w -> well_formed (updateNoteText id t w).
Proof. apply update_note_wf; reflexivity. Qed.

Lemma createLink_frame a b w :
  notes (snd (createLink a b w)) = notes w
  /\ selectedNoteIds (snd (createLink a b w)) = selectedNoteIds w
  /\ noteCounter (snd (createLink a b w)) = noteCounter w.
Proof.
  unfold createLink.
  destruct (String.eqb a b); [auto|].
  destruct (existsb (connects a b) (links w)); auto.
Qed.

Lemma applyZoom_frame d cx cy w :
  notes (applyZoom d cx cy w) = notes w
  /\ links (applyZoom d cx cy w) = links w
  /\ selectedNoteIds (applyZoom d cx cy w) = selectedNoteIds w
  /\ noteCounter (applyZoom d cx cy w) = noteCounter w.
Proof. unfold applyZoom. destruct Req_dec_T; auto. Qed.

Lemma applyZoomFactor_frame f cx cy w :
  notes (applyZoomFactor f cx cy w) = notes w
  /\ links (applyZoomFactor f cx cy w) = links w
  /\ selectedNoteIds (applyZoomFactor f cx cy w) = selectedNoteIds w
  /\ noteCounter (applyZoomFactor f cx cy w) = noteCounter w.
Proof. unfold applyZoomFactor. destruct Rlt_dec; auto. Qed.

Lemma exec_wf op w :
  selects_existing w op = true -> well_formed w -> well_formed (exec op w).
Proof.
  intros Hok H.
  destruct op; cbn [exec selects_existing] in *.
  - now apply createNote_wf.
  - now apply deleteNote_wf.
  - now apply deleteSelectedNotes_wf.
  - now apply selectNote_wf.
  - now apply deselectNote_wf.
  - now apply clearSelection_wf.
  - now apply moveNote_wf.
  - now apply moveSelectedNotes_wf.
  - now apply updateNoteText_wf.
  - destruct (createLink_frame fromId toId w) as (E1 & E2 & E3).
    now apply (well_formed_frame w).
  - now apply (well_formed_frame w).
  - now apply (well_formed_frame w).
  - destruct (applyZoom_frame delta centerX centerY w) as (E1 & _ & E2 & E3).
    now apply (well_formed_frame w).
  - destruct (applyZoomFactor_frame factor centerX centerY w)
      as (E1 & _ & E2 & E3).
    now apply (well_formed_frame w).
  - now apply (well_formed_frame w).
Qed.

Lemma run_wf ops : forall w,
  admissible ops w = true -> well_formed w -> well_formed (run ops w).
Proof.
  induction ops as [|op ops IH]; intros w Hadm H; [exact H|].
  cbn in Hadm. apply andb_true_iff in Hadm. destruct Hadm as [Hop Hrest].
  cbn. apply IH; [exact Hrest | now apply exec_wf].
Qed.

(** ** The counters along a run *)

Lemma noteCounter_exec op w :
  noteCounter (exec op w)
  = (noteCounter w + if isCreateNote op then 1 else 0)%nat.
Proof.
  destruct op; cbn [exec isCreateNote]; rewrite ?Nat.add_0_r;
    try reflexivity.
  - cbn. lia.
  - unfold deleteSelectedNotes. cbn.
    apply (fold_left_preserves (fun s => noteCounter s = noteCounter w));
      auto.
  - unfold selectNote. destruct addToSelection; reflexivity.
  - unfold moveSelectedNotes.
    apply (fold_left_preserves (fun s => noteCounter s = noteCounter w));
      auto.
  - apply createLink_frame.
  - apply applyZoom_frame.
  - apply applyZoomFactor_frame.
Qed.

Lemma noteCounter_run ops : forall w,
  noteCounter (run ops w) = (noteCounter w + creations ops)%nat.
Proof.
  unfold creations.
  induction ops as [|op ops IH]; intros w; cbn; [lia|].
  change (fold_left (fun s o => exec o s) ops (exec op w))
    with (run ops (exec op w)).
  rewrite IH, noteCounter_exec.
  destruct (isCreateNote op); cbn; lia.
Qed.

(** ** Links along a run *)

Lemma exec_links op w :
  (exists a b, op = OpCreateLink a b)
  \/ (forall p, (List.length (filter p (links (exec op w)))
                 <= List.length (filter p (links w)))%nat).
Proof.
  destruct op; cbn [exec]; try (right; intros p; reflexivity).
  - right. intros p. rewrite deleteNote_links. apply filter_filter_length.
  - right. unfold deleteSelectedNotes. cbn [clearSelection links set_notes
                                            set_selectedNoteIds].
    apply (fold_left_preserves
             (fun s => forall p, (List.length (filter p (links s))
                                  <= List.length (filter p (links w)))%nat));
      [|auto].
    intros s id Hs p. rewrite deleteNote_links.
    etransitivity; [apply filter_filter_length | apply Hs].
  - right. intros p. unfold selectNote. destruct addToSelection; reflexivity.
  - right. unfold moveSelectedNotes.
    apply (fold_left_preserves
             (fun s => forall p, (List.length (filter p (links s))
                                  <= List.length (filter p (links w)))%nat));
      auto.
  - left. eauto.
  - right. intros p. apply filter_filter_length.
  - right. intros p. apply filter_filter_length.
  - right. intros p.
    destruct (applyZoom_frame delta centerX centerY w) as (_ & E & _).
    now rewrite E.
  - right. intros p.
    destruct (applyZoomFactor_frame factor centerX centerY w) as (_ & E & _).
    now rewrite E.
Qed.

Lemma exec_links_deduplicated op w :
  links_deduplicated w -> links_deduplicated (exec op w).
Proof.
  intros H a b.
  destruct (exec_links op w) as [[x [y ->]]|Hsh].
  - cbn [exec]. now apply createLink_links_between.
  - unfold links_between. etransitivity; [apply Hsh | apply H].
Qed.

Lemma reachable_links_deduplicated w : reachable w -> links_deduplicated w.
Proof.
  intros [ops ->]. unfold run.
  apply (fold_left_preserves links_deduplicated).
  - intros s op. apply exec_links_deduplicated.
  - intros a b. cbn. lia.
Qed.

(** ** Theorems on links and notes *)

Lemma createLink_then_reverse a b w :
  a <> b -> (links_between a b w <= 1)%nat ->
  fst (createLink b a (snd (createLink a b w))) = None
  /\ snd (createLink b a (snd (createLink a b w))) = snd (createLink a b w)
  /\ links_between a b (snd (createLink a b w)) = 1%nat.
Proof.
  intros Hab Hle.
  assert (Hlinked : linked a b (snd (createLink a b w))
                    /\ links_between a b (snd (createLink a b w)) = 1%nat).
  { destruct (existsb (connects a b) (links w)) eqn:E.
    - apply existsb_connects_linked in E.
      rewrite (createLink_duplicate a b w E). cbn [snd].
      split; [exact E|]. apply links_between_pos in E. lia.
    - assert (Hno : ~ linked a b w).
      { intros H. apply existsb_connects_linked in H. congruence. }
      rewrite (createLink_fresh a b w Hab Hno). cbn [snd]. split.
      + exists (mkLink (linkId (S (linkCounter w))) a b). cbn. split; auto.
        apply in_or_app. right. now left.
      + assert (H0 : links_between a b w = 0%nat).
        { destruct (links_between a b w) eqn:En; [reflexivity|].
          exfalso. apply Hno, links_between_pos. lia. }
        unfold links_between in *. cbn [links].
        rewrite filter_length_app, H0. cbn [filter].
        unfold connects at 1. cbn [l_from l_to].
        now rewrite !String.eqb_refl. }
  destruct Hlinked as [Hl Hone].
  rewrite (createLink_duplicate b a _ (linked_sym _ _ _ Hl)).
  auto.
Qed.

(** C3. Link de-duplication and self-link rejection: [createLink a a]
    returns [null] and leaves the workspace as it was; once a link joins
    [a] and [b] in either direction, [createLink a b] and [createLink b a]
    return [null] and add nothing; and [createLink a b] followed by
    [createLink b a] leaves exactly one link joining [{a, b}], in every
    workspace that did not already hold two such links, hence in every
    reachable workspace. *)
Theorem createLink_rejects_self_and_duplicates :
  (forall (a : string) (w : State), createLink a a w = (None, w))
  /\ (forall (a b : string) (w : State),
        a <> b -> linked a b w ->
        createLink a b w = (None, w) /\ createLink b a w = (None, w))
  /\ (forall (a b : string) (w : State),
        a <> b -> (links_between a b w <= 1)%nat ->
        let w1 := snd (createLink a b w) in
        fst (createLink b a w1) = None
        /\ snd (createLink b a w1) = w1
        /\ links_between a b (snd (createLink b a w1)) = 1%nat)
  /\ (forall (a b : string) (w : State),
        a <> b -> reachable w ->
        links_between a b (snd (createLink b a (snd (createLink a b w))))
        = 1%nat).
Proof.
  split; [|split; [|split]].
  - apply createLink_self.
  - intros a b w _ H. split; apply createLink_duplicate;
      [exact H | now apply linked_sym].
  - intros a b w Hab Hle w1. subst w1.
    destruct (createLink_then_reverse a b w Hab Hle) as (H1 & H2 & H3).
    rewrite H2. auto.
  - intros a b w Hab Hr.
    pose proof (reachable_links_deduplicated w Hr a b) as Hle.
    destruct (createLink_then_reverse a b w Hab Hle) as (H1 & H2 & H3).
    now rewrite H2.
Qed.

Lemma createLink_rejects_self_and_duplicates_witness :
  let w := snd (createLink "note_1" "note_2" initial) in
  (createLink "note_1" "note_2" w = (None, w)
   /\ createLink "note_2" "note_1" w = (None, w))
  /\ links_between "note_1" "note_2"
       (snd (createLink "note_2" "note_1"
               (snd (createLink "note_1" "note_2" initial)))) = 1%nat.
Proof.
  destruct createLink_rejects_self_and_duplicates as (_ & Hdup & _ & Hone).
  split.
  - apply Hdup; [discriminate|].
    exists (mkLink "link_1" "note_1" "note_2"). cbn. auto.
  - apply Hone; [discriminate|]. exists []. reflexivity.
Defined.

(** C10. [createLink] makes no existence check on its endpoints: it
    returns [null] exactly when the two ids are equal or a link already
    joins them in either direction; for distinct, not yet linked ids it
    appends the link [link_<n>] and returns it whatever [workspace.notes]
    holds, so that in the empty workspace two ids of no note get linked. *)
Theorem createLink_no_endpoint_check :
  (forall (a b : string) (w : State),
      fst (createLink a b w) = None <-> (a = b \/ linked a b w))
  /\ (forall (a b : string) (w : State),
      a <> b -> ~ linked a b w ->
      let l := mkLink (linkId (S (linkCounter w))) a b in
      fst (createLink a b w) = Some l
      /\ links (snd (createLink a b w)) = links w ++ [l]
      /\ notes (snd (createLink a b w)) = notes w)
  /\ (notes initial = []
      /\ createLink "ghost_a" "ghost_b" initial
         = (Some (mkLink "link_1" "ghost_a" "ghost_b"),
            mkState [] [mkLink "link_1" "ghost_a" "ghost_b"] 1 0 0 [] None
                    0 1)).
Proof.
  split; [|split].
  - intros a b w. split.
    + intros H. destruct (String.eqb a b) eqn:Eab.
      * left. now apply String.eqb_eq.
      * right. apply existsb_connects_linked.
        destruct (existsb (connects a b) (links w)) eqn:E; [reflexivity|].
        unfold createLink in H. rewrite Eab, E in H. discriminate.
    + intros [->|H].
      * now rewrite createLink_self.
      * now rewrite (createLink_duplicate a b w H).
  - intros a b w Hab Hno l. subst l.
    rewrite (createLink_fresh a b w Hab Hno). cbn. auto.
  - split; reflexivity.
Qed.

Lemma createLink_no_endpoint_check_witness :
  let w := snd (createNote 0 0 None initial) in
  ~ In "ghost_a" (map n_id (notes w)) /\ ~ In "ghost_b" (map n_id (notes w))
  /\ fst (createLink "ghost_a" "ghost_b" w)
     = Some (mkLink "link_1" "ghost_a" "ghost_b")
  /\ links (snd (createLink "ghost_a" "ghost_b" w))
     = [mkLink "link_1" "ghost_a" "ghost_b"].
Proof.
  destruct createLink_no_endpoint_check as (_ & Hfresh & _).
  assert (Hno : ~ linked "ghost_a" "ghost_b" (snd (createNote 0 0 None initial))).
  { intros [l [[] _]]. }
  destruct (Hfresh "ghost_a" "ghost_b" (snd (createNote 0 0 None initial))
              ltac:(discriminate) Hno) as (H1 & H2 & _).
  split; [|split; [|split]].
  - cbn. intros [H|[]]. discriminate.
  - cbn. intros [H|[]]. discriminate.
  - exact H1.
  - exact H2.
Defined.

Lemma filter_swap {A} (p q : A -> bool) (l : list A) :
  filter p (filter q l) = filter q (filter p l).
Proof.
  induction l as [|a l IH]; [reflexivity|].
  cbn. destruct (p a) eqn:Ep, (q a) eqn:Eq; cbn; rewrite ?Ep, ?Eq, IH;
    reflexivity.
Qed.

(** C4. Cascading delete: in a workspace holding notes [A] and [B]
    (of different ids) and a link between them, [deleteNote (id A)]
    leaves no note with the id of [A], removes that link and every other
    link with [A] as an endpoint and no other link, removes the id of [A]
    from the selected ids, and keeps [B], the very same record, in the
    note list; if the link was the only one touching [B], no link touches
    [B] afterwards. *)
Theorem deleteNote_cascades :
  forall (w : State) (A B : Note) (l : Link),
    In A (notes w) -> In B (notes w) -> n_id A <> n_id B ->
    In l (links w) ->
    (l_from l = n_id A /\ l_to l = n_id B)
    \/ (l_from l = n_id B /\ l_to l = n_id A) ->
    let w' := deleteNote (n_id A) w in
    ~ In A (notes w')
    /\ (forall n, In n (notes w') -> n_id n <> n_id A)
    /\ ~ In l (links w')
    /\ (forall l', In l' (links w') ->
          l_from l' <> n_id A /\ l_to l' <> n_id A)
    /\ (forall l', In l' (links w) ->
          l_from l' <> n_id A -> l_to l' <> n_id A -> In l' (links w'))
    /\ ~ In (n_id A) (selectedNoteIds w')
    /\ In B (notes w')
    /\ (getLinksForNote (n_id B) w = [l] -> getLinksForNote (n_id B) w' = []).
Proof.
  intros w A B l HA HB Hne Hl Hends w'. subst w'.
  assert (Hnotes : forall n, In n (notes (deleteNote (n_id A) w)) ->
                             n_id n <> n_id A).
  { intros n Hin. rewrite deleteNote_notes in Hin. apply filter_In in Hin.
    destruct Hin as [_ H]. apply String.eqb_neq.
    now destruct (String.eqb (n_id n) (n_id A)). }
  assert (Hlinks : forall l', In l' (links (deleteNote (n_id A) w)) ->
                     l_from l' <> n_id A /\ l_to l' <> n_id A).
  { intros l' Hin. rewrite deleteNote_links in Hin. apply filter_In in Hin.
    destruct Hin as [_ H]. apply andb_true_iff in H. destruct H as [H1 H2].
    split; apply String.eqb_neq.
    - now destruct (String.eqb (l_from l') (n_id A)).
    - now destruct (String.eqb (l_to l') (n_id A)). }
  assert (Hgone : ~ In l (links (deleteNote (n_id A) w))).
  { intros Hin. apply Hlinks in Hin. tauto. }
  repeat split.
  - intros Hin. now apply (Hnotes A Hin).
  - exact Hnotes.
  - exact Hgone.
  - now apply Hlinks.
  - now apply Hlinks.
  - intros l' Hin H1 H2. rewrite deleteNote_links. apply filter_In.
    split; [exact Hin|]. apply String.eqb_neq in H1, H2. now rewrite H1, H2.
  - rewrite deleteNote_selected. intros Hin. apply filter_In in Hin.
    destruct Hin as [_ H]. now rewrite String.eqb_refl in H.
  - rewrite deleteNote_notes. apply filter_In. split; [exact HB|].
    apply String.eqb_neq in Hne. rewrite String.eqb_sym in Hne.
    now rewrite Hne.
  - intros Honly. unfold getLinksForNote in *. rewrite deleteNote_links.
    rewrite filter_swap, Honly. cbn [filter].
    destruct Hends as [[-> _]|[_ ->]]; rewrite String.eqb_refl; cbn;
      rewrite ?andb_false_r; reflexivity.
Qed.

Lemma deleteNote_cascades_witness :
  let A := mkNote "note_1" 300 240 200 120 "Welcome to VisualNote" true
                  "#8b5cf6" in
  let B := mkNote "note_2" 650 190 200 120 "Right hand: Pinch to select"
                  false "#ec4899" in
  let l := mkLink "link_1" "note_1" "note_2" in
  let w := mkState [A; B] [l] 1 0 0 ["note_1"] None 2 1 in
  notes (deleteNote "note_1" w) = [B]
  /\ ~ In A (notes (deleteNote "note_1" w))
  /\ ~ In l (links (deleteNote "note_1" w))
  /\ ~ In "note_1" (selectedNoteIds (deleteNote "note_1" w))
  /\ In B (notes (deleteNote "note_1" w))
  /\ getLinksForNote "note_2" (deleteNote "note_1" w) = [].
Proof.
  intros A B l w.
  assert (HA : In A (notes w)) by (left; reflexivity).
  assert (HB : In B (notes w)) by (right; left; reflexivity).
  assert (Hne : n_id A <> n_id B) by discriminate.
  assert (Hl : In l (links w)) by (left; reflexivity).
  assert (Hends : (l_from l = n_id A /\ l_to l = n_id B)
                  \/ (l_from l = n_id B /\ l_to l = n_id A))
    by (left; split; reflexivity).
  destruct (deleteNote_cascades w A B l HA HB Hne Hl Hends)
    as (H1 & _ & H3 & _ & _ & H6 & H7 & H8).
  split; [reflexivity|].
  split; [exact H1|]. split; [exact H3|]. split; [exact H6|].
  split; [exact H7|]. apply H8. reflexivity.
Defined.

(** C5, as the code has it. From the initial workspace, along every
    sequence of operations in which [selectNote] is given the id of a
    note present in the workspace (all other operations taking any
    arguments), each note has [selected = true] exactly when its id is in
    [selection.selectedNoteIds]: this holds initially, after every such
    sequence, and after one more such operation. *)
Theorem selection_synced_on_admissible_runs :
  selection_synced initial
  /\ (forall ops : list Op,
        admissible ops initial = true -> selection_synced (run ops initial))
  /\ (forall (ops : list Op) (op : Op),
        admissible ops initial = true ->
        selects_existing (run ops initial) op = true ->
        selection_synced (exec op (run ops initial))).
Proof.
  split; [|split].
  - apply well_formed_initial.
  - intros ops H. apply wf_synced, run_wf; [exact H|].
    apply well_formed_initial.
  - intros ops op H Hop. apply wf_synced, exec_wf; [exact Hop|].
    apply run_wf; [exact H | apply well_formed_initial].
Qed.

Lemma selection_synced_on_admissible_runs_witness :
  let ops := [ OpCreateNote 400 300 None; OpCreateNote 750 250 None;
               OpSelectNote "note_2" false; OpSelectNote "note_1" true;
               OpDeselectNote "note_2"; OpDeleteNote "note_1" ] in
  admissible ops initial = true
  /\ selection_synced (run ops initial)
  /\ selection_synced (exec (OpSelectNote "note_2" false) (run ops initial)).
Proof.
  intros ops.
  destruct selection_synced_on_admissible_runs as (_ & Hrun & Hstep).
  assert (Hadm : admissible ops initial = true) by reflexivity.
  split; [exact Hadm|]. split.
  - apply Hrun. exact Hadm.
  - apply Hstep; [exact Hadm | reflexivity].
Defined.

(** C5, as stated, fails: [selectNote] accepts the id of a note that does
    not exist yet, and the note later created under that id starts
    unselected although its id is in the selected-id list. *)
Lemma selection_sync_broken_by_createNote :
  let w := run [OpSelectNote "note_1" false] initial in
  reachable w
  /\ selection_synced w
  /\ ~ selection_synced (exec (OpCreateNote 0 0 None) w)
  /\ ~ (forall w', reachable w' -> selection_synced w').
Proof.
  intros w.
  assert (Hbad : ~ selection_synced (exec (OpCreateNote 0 0 None) w)).
  { intros H.
    specialize (H (fst (createNote 0 0 None w)) (or_introl eq_refl)).
    cbn in H. discriminate. }
  split; [|split; [|split]].
  - exists [OpSelectNote "note_1" false]. reflexivity.
  - intros n [].
  - exact Hbad.
  - intros H. apply Hbad, H.
    exists [OpSelectNote "note_1" false; OpCreateNote 0 0 None]. reflexivity.
Qed.

(** ** Note ids and colours *)

Lemma createNote_fields wx wy t w :
  n_id (fst (createNote wx wy t w)) = noteId (S (noteCounter w))
  /\ n_color (fst (createNote wx wy t w))
     = nth (S (noteCounter w) mod 8) NOTE_COLORS "".
Proof. split; reflexivity. Qed.

(** C9, as the code has it. After any sequence of operations from the
    initial workspace that holds [k - 1] calls of [createNote], the next
    note created, the [k]-th ever, gets the id [note_<k>] and the palette
    entry at zero-based index [k mod 8]: violet for the first note, pink
    for the second, blue for the seventh, indigo for the eighth and
    violet again for the ninth. *)
Theorem createNote_id_and_color :
  forall (ops : list Op) (wx wy : R) (t : option string),
    let k := S (creations ops) in
    let note := fst (createNote wx wy t (run ops initial)) in
    n_id note = String.append "note_" (decimal k)
    /\ n_color note = nth (k mod 8) NOTE_COLORS ""
    /\ In (n_color note) NOTE_COLORS
    /\ (k mod 8 = 1%nat -> n_color note = "#8b5cf6")
    /\ (k mod 8 = 2%nat -> n_color note = "#ec4899")
    /\ (k mod 8 = 7%nat -> n_color note = "#3b82f6")
    /\ (k mod 8 = 0%nat -> n_color note = "#6366f1").
Proof.
  intros ops wx wy t k note. subst k note.
  destruct (createNote_fields wx wy t (run ops initial)) as [Hid Hcol].
  rewrite noteCounter_run in Hid, Hcol. cbn [noteCounter initial Nat.add] in *.
  split; [exact Hid|]. split; [exact Hcol|].
  rewrite Hcol.
  split.
  - apply nth_In. cbn [List.length NOTE_COLORS]. apply Nat.mod_upper_bound. lia.
  - repeat split; intros ->; reflexivity.
Qed.

Lemma createNote_id_and_color_witness :
  let ops := [ OpCreateNote 400 300 (Some "Welcome to VisualNote");
               OpSelectNote "note_1" false ] in
  let note := fst (createNote 750 250 None (run ops initial)) in
  n_id note = "note_2" /\ n_color note = "#ec4899".
Proof.
  intros ops note.
  destruct (createNote_id_and_color ops 750 250 None)
    as (Hid & _ & _ & _ & H2 & _).
  split; [exact Hid | apply H2; reflexivity].
Defined.

(** C9, as stated, fails: the first note ever created is given the
    second palette entry, violet, not the first one, indigo; indigo goes
    to the eighth note and the ninth gets violet again. *)
Lemma first_note_is_violet_not_indigo :
  let first := fst (createNote 400 300 (Some "Welcome to VisualNote") initial) in
  let ninth :=
    fst (createNote 0 0 None (run (repeat (OpCreateNote 0 0 None) 8) initial)) in
  n_id first = "note_1"
  /\ n_color first = "#8b5cf6"
  /\ n_color first <> "#6366f1"
  /\ n_id ninth = "note_9"
  /\ n_color ninth <> "#6366f1".
Proof.
  cbn zeta. repeat split; try reflexivity; cbn; discriminate.
Qed.

(** ** The pinch state machine *)

Ltac pinch_cases :=
  unfold pinchFrame, pinchMachine, Rltb, Rleb, debounced,
         PINCH_THRESHOLD, RELEASE_THRESHOLD, PINCH_DEBOUNCE_MS in *;
  cbn [with_pinch isPinching pinchStartTime pinchConfirmed pinchJustConfirmed
       pinchJustReleased negb andb] in *.

(** Engaging: the hand was not pinching and the distance is under the
    pinch threshold. *)
Lemma pinchFrame_engage f h :
  isPinching h = false -> thumbIndexDist f < PINCH_THRESHOLD ->
  let s := pinchFrame f h in
  isPinching s = true /\ pinchStartTime s = nowEngage f
  /\ pinchJustReleased s = false
  /\ (debounced (nowEngage f) f ->
        pinchConfirmed s = true /\ pinchJustConfirmed s = true)
  /\ (~ debounced (nowEngage f) f -> unconfirmed s).
Proof.
  intros Hp Hd. unfold unconfirmed. pinch_cases. rewrite Hp. cbn.
  destruct Rlt_dec; [|lra]. cbn.
  destruct Rle_dec; cbn; repeat split; auto; try tauto; try discriminate.
Qed.

(** Holding a pinch that is not confirmed yet. *)
Lemma pinchFrame_pending f h :
  isPinching h = true -> pinchConfirmed h = false -> held f ->
  let s := pinchFrame f h in
  isPinching s = true /\ pinchStartTime s = pinchStartTime h
  /\ pinchJustReleased s = false
  /\ (debounced (pinchStartTime h) f ->
        pinchConfirmed s = true /\ pinchJustConfirmed s = true)
  /\ (~ debounced (pinchStartTime h) f -> unconfirmed s).
Proof.
  intros Hp Hc Hd. unfold unconfirmed, held in *. pinch_cases.
  rewrite Hp, Hc. cbn.
  destruct Rlt_dec; [lra|]. cbn. rewrite ?Hp, ?Hc. cbn.
  destruct Rle_dec; cbn; repeat split; auto; try tauto; try discriminate.
Qed.

(** Holding a confirmed pinch. *)
Lemma pinchFrame_confirmed f h :
  isPinching h = true -> pinchConfirmed h = true -> held f ->
  let s := pinchFrame f h in
  isPinching s = true /\ pinchStartTime s = pinchStartTime h
  /\ pinchConfirmed s = true /\ pinchJustConfirmed s = false
  /\ pinchJustReleased s = false.
Proof.
  intros Hp Hc Hd. unfold held in *. pinch_cases.
  rewrite Hp, Hc. cbn.
  destruct Rlt_dec; [lra|]. cbn. rewrite ?Hp, ?Hc. cbn. auto.
Qed.

(** Letting go. *)
Lemma pinchFrame_release f h :
  isPinching h = true -> RELEASE_THRESHOLD < thumbIndexDist f ->
  let s := pinchFrame f h in
  isPinching s = false /\ pinchStartTime s = 0
  /\ pinchConfirmed s = false /\ pinchJustConfirmed s = false
  /\ pinchJustReleased s = pinchConfirmed h.
Proof.
  intros Hp Hd. pinch_cases. rewrite Hp. cbn.
  destruct Rlt_dec; [|lra]. cbn.
  destruct (pinchConfirmed h); auto.
Qed.

Lemma pinchTrace_app fs1 : forall fs2 h,
  pinchTrace (fs1 ++ fs2) h
  = pinchTrace fs1 h ++ pinchTrace fs2 (pinchRun fs1 h).
Proof.
  induction fs1 as [|f fs1 IH]; intros fs2 h; [reflexivity|].
  cbn. now rewrite IH.
Qed.

Lemma pinchRun_app fs1 fs2 h :
  pinchRun (fs1 ++ fs2) h = pinchRun fs2 (pinchRun fs1 h).
Proof. unfold pinchRun. apply fold_left_app. Qed.

Lemma pinchTrace_length fs : forall h,
  List.length (pinchTrace fs h) = List.length fs.
Proof. induction fs as [|f fs IH]; intros h; cbn; [|rewrite IH]; reflexivity. Qed.

(** A confirmed pinch that is held stays confirmed, with no new edge. *)
Lemma pinchTrace_confirmed fs : forall h,
  isPinching h = true -> pinchConfirmed h = true -> Forall held fs ->
  Forall (fun s => pinchConfirmed s = true /\ pinchJustConfirmed s = false)
         (pinchTrace fs h)
  /\ isPinching (pinchRun fs h) = true
  /\ pinchConfirmed (pinchRun fs h) = true.
Proof.
  induction fs as [|f fs IH]; intros h Hp Hc Hall.
  - cbn. auto.
  - inversion Hall as [|x xs Hf Hfs]; subst.
    destruct (pinchFrame_confirmed f h Hp Hc Hf) as (H1 & _ & H3 & H4 & _).
    destruct (IH (pinchFrame f h) H1 H3 Hfs) as (IH1 & IH2 & IH3).
    cbn. auto.
Qed.

(** A held pinch stays unconfirmed as long as no clock check reaches the
    debounce time. *)
Lemma pinchTrace_pending fs : forall h,
  isPinching h = true -> pinchConfirmed h = false -> Forall held fs ->
  Forall (fun f => ~ debounced (pinchStartTime h) f) fs ->
  Forall unconfirmed (pinchTrace fs h)
  /\ isPinching (pinchRun fs h) = true
  /\ pinchConfirmed (pinchRun fs h) = false
  /\ pinchStartTime (pinchRun fs h) = pinchStartTime h.
Proof.
  induction fs as [|f fs IH]; intros h Hp Hc Hall Hnot.
  - cbn. auto.
  - inversion Hall as [|x xs Hf Hfs]; subst.
    inversion Hnot as [|y ys Hn Hns]; subst.
    destruct (pinchFrame_pending f h Hp Hc Hf) as (H1 & H2 & _ & _ & H5).
    specialize (H5 Hn).
    rewrite <- H2 in Hns.
    destruct (IH (pinchFrame f h) H1 (proj1 H5) Hfs Hns)
      as (IH1 & IH2 & IH3 & IH4).
    cbn [pinchTrace].
    change (pinchRun (f :: fs) h) with (pinchRun fs (pinchFrame f h)).
    rewrite IH4, H2. auto.
Qed.

Lemma confirmEdges_none hs :
  Forall (fun s => pinchJustConfirmed s = false) hs -> confirmEdges hs = 0%nat.
Proof.
  unfold confirmEdges. induction 1 as [|s hs Hs _ IH]; [reflexivity|].
  cbn. now rewrite Hs.
Qed.

Lemma confirmEdges_split hs1 s hs2 :
  confirmEdges (hs1 ++ s :: hs2)
  = (confirmEdges hs1 + (if pinchJustConfirmed s then 1 else 0)
     + confirmEdges hs2)%nat.
Proof.
  unfold confirmEdges. rewrite filter_app, length_app. cbn [filter].
  destruct (pinchJustConfirmed s); cbn [List.length]; lia.
Qed.

Lemma unconfirmed_no_edge hs :
  Forall unconfirmed hs -> Forall (fun s => pinchJustConfirmed s = false) hs.
Proof. apply Forall_impl. intros s [_ H]. exact H. Qed.

Lemma confirmed_no_edge hs :
  Forall (fun s => pinchConfirmed s = true /\ pinchJustConfirmed s = false) hs ->
  Forall (fun s => pinchJustConfirmed s = false) hs.
Proof. apply Forall_impl. intros s [_ H]. exact H. Qed.

(** The first frame of a sequence at which the debounce time is reached. *)
Lemma first_debounced start fs :
  Exists (debounced start) fs ->
  exists before f after,
    fs = before ++ f :: after
    /\ Forall (fun g => ~ debounced start g) before
    /\ debounced start f.
Proof.
  induction fs as [|g fs IH]; intros Hex; [inversion Hex|].
  destruct (Rle_dec PINCH_DEBOUNCE_MS (nowCheck g - start)) as [Hg|Hg].
  - exists [], g, fs. auto.
  - assert (Hrest : Exists (debounced start) fs)
      by (inversion Hex; subst; [contradiction | assumption]).
    destruct (IH Hrest) as (before & f & after & -> & Hb & Hf).
    exists (g :: before), f, after. auto.
Qed.

(** From a pinch that is engaged and not confirmed: the frame at which the
    debounce time is first reached carries the only confirmation edge. *)
Lemma pending_then_confirmed before f after h :
  isPinching h = true -> pinchConfirmed h = false ->
  Forall held (before ++ f :: after) ->
  Forall (fun g => ~ debounced (pinchStartTime h) g) before ->
  debounced (pinchStartTime h) f ->
  let s := pinchFrame f (pinchRun before h) in
  pinchTrace (before ++ f :: after) h
  = pinchTrace before h ++ s :: pinchTrace after s
  /\ Forall unconfirmed (pinchTrace before h)
  /\ pinchConfirmed s = true /\ pinchJustConfirmed s = true
  /\ Forall (fun s' => pinchConfirmed s' = true /\ pinchJustConfirmed s' = false)
            (pinchTrace after s)
  /\ pinchConfirmed (pinchRun (before ++ f :: after) h) = true.
Proof.
  intros Hp Hc Hheld Hnot Hf s.
  apply Forall_app in Hheld. destruct Hheld as [Hb Hfa].
  inversion Hfa as [|x xs Hfh Ha]; subst x xs.
  destruct (pinchTrace_pending before h Hp Hc Hb Hnot)
    as (Hb1 & Hb2 & Hb3 & Hb4).
  destruct (pinchFrame_pending f (pinchRun before h) Hb2 Hb3 Hfh)
    as (Hs1 & _ & _ & Hs4 & _).
  rewrite Hb4 in Hs4. destruct (Hs4 Hf) as [Hsc Hsj].
  destruct (pinchTrace_confirmed after s Hs1 Hsc Ha) as (Ha1 & _ & Ha3).
  rewrite pinchTrace_app, pinchRun_app. cbn [pinchTrace].
  repeat split; auto.
Qed.

Lemma hold_from_idle h f0 fs before f after :
  isPinching h = false -> thumbIndexDist f0 < PINCH_THRESHOLD ->
  Forall held fs ->
  f0 :: fs = before ++ f :: after ->
  Forall (fun g => ~ debounced (nowEngage f0) g) before ->
  debounced (nowEngage f0) f ->
  let s := pinchFrame f (pinchRun before h) in
  pinchTrace (f0 :: fs) h = pinchTrace before h ++ s :: pinchTrace after s
  /\ Forall unconfirmed (pinchTrace before h)
  /\ pinchConfirmed s = true /\ pinchJustConfirmed s = true
  /\ Forall (fun s' => pinchConfirmed s' = true /\ pinchJustConfirmed s' = false)
            (pinchTrace after s)
  /\ pinchConfirmed (pinchRun (f0 :: fs) h) = true.
Proof.
  intros Hp Hd Hheld Heq Hnot Hf s.
  destruct (pinchFrame_engage f0 h Hp Hd) as (E1 & E2 & _ & E4 & E5).
  destruct before as [|b before].
  - cbn [app] in Heq. injection Heq as <- <-. subst s. cbn [pinchRun fold_left].
    destruct (E4 Hf) as [Hc Hj].
    destruct (pinchTrace_confirmed fs (pinchFrame f0 h) E1 Hc Hheld)
      as (Ha1 & _ & Ha3).
    cbn [pinchTrace app]. repeat split; auto.
  - cbn [app] in Heq. injection Heq as <- ->.
    inversion Hnot as [|x xs Hn0 Hnb]; subst x xs.
    specialize (E5 Hn0). destruct E5 as [Hc0 Hj0].
    rewrite <- E2 in Hnb, Hf.
    destruct (pending_then_confirmed before f after (pinchFrame f0 h)
                E1 Hc0 Hheld Hnb Hf) as (T1 & T2 & T3 & T4 & T5 & T6).
    subst s.
    change (pinchRun (f0 :: before) h) with (pinchRun before (pinchFrame f0 h)).
    change (pinchRun (f0 :: before ++ f :: after) h)
      with (pinchRun (before ++ f :: after) (pinchFrame f0 h)).
    cbn [pinchTrace app]. rewrite T1.
    repeat split; auto.
    constructor; [split; assumption | exact T2].
Qed.

(** C6. Pinch debounce and hysteresis, for the frames fed to one hand's
    pinch state machine from a hand that is not pinching.  (1) If the
    distance drops below 0.06, stays at most 0.09 and then rises above
    0.09 while less than 120 ms have elapsed since the drop, no frame of
    the episode has [pinchConfirmed] or [pinchJustConfirmed] set, and the
    release raises no [pinchJustReleased].  (2) If the distance drops
    below 0.06 and the pinch is held, then at the first frame at which
    120 ms have elapsed since engagement [pinchConfirmed] and
    [pinchJustConfirmed] are set, no earlier frame has either, every later
    frame has [pinchConfirmed] set and [pinchJustConfirmed] clear.  (3) As
    soon as some frame of a held pinch reaches 120 ms, exactly one frame
    of the pinch has [pinchJustConfirmed] set. *)
Theorem pinch_debounce_hysteresis :
  (forall (h : HandState) (f0 : PinchFrame) (mid : list PinchFrame)
          (frel : PinchFrame),
      isPinching h = false ->
      thumbIndexDist f0 < PINCH_THRESHOLD ->
      Forall held mid ->
      RELEASE_THRESHOLD < thumbIndexDist frel ->
      Forall (fun g => nowCheck g <= nowCheck frel) (f0 :: mid) ->
      nowCheck frel - nowEngage f0 < PINCH_DEBOUNCE_MS ->
      Forall unconfirmed (pinchTrace (f0 :: mid ++ [frel]) h)
      /\ isPinching (pinchRun (f0 :: mid ++ [frel]) h) = false
      /\ pinchJustReleased (pinchRun (f0 :: mid ++ [frel]) h) = false)
  /\ (forall (h : HandState) (f0 : PinchFrame) (fs before : list PinchFrame)
             (f : PinchFrame) (after : list PinchFrame),
      isPinching h = false ->
      thumbIndexDist f0 < PINCH_THRESHOLD ->
      Forall held fs ->
      f0 :: fs = before ++ f :: after ->
      Forall (fun g => ~ debounced (nowEngage f0) g) before ->
      debounced (nowEngage f0) f ->
      let s := pinchFrame f (pinchRun before h) in
      pinchTrace (f0 :: fs) h = pinchTrace before h ++ s :: pinchTrace after s
      /\ Forall unconfirmed (pinchTrace before h)
      /\ pinchConfirmed s = true /\ pinchJustConfirmed s = true
      /\ Forall (fun s' => pinchConfirmed s' = true
                           /\ pinchJustConfirmed s' = false)
                (pinchTrace after s))
  /\ (forall (h : HandState) (f0 : PinchFrame) (fs : list PinchFrame),
      isPinching h = false ->
      thumbIndexDist f0 < PINCH_THRESHOLD ->
      Forall held fs ->
      Exists (debounced (nowEngage f0)) (f0 :: fs) ->
      confirmEdges (pinchTrace (f0 :: fs) h) = 1%nat
      /\ pinchConfirmed (pinchRun (f0 :: fs) h) = true).
Proof.
  split; [|split].
  - intros h f0 mid frel Hp Hd Hheld Hrel Hclock Hwin.
    assert (Hnot : Forall (fun g => ~ debounced (nowEngage f0) g) (f0 :: mid)).
    { revert Hclock. apply Forall_impl. intros g Hg.
      unfold debounced, PINCH_DEBOUNCE_MS in *. lra. }
    inversion Hnot as [|x xs Hn0 Hnm]; subst x xs.
    destruct (pinchFrame_engage f0 h Hp Hd) as (E1 & E2 & _ & _ & E5).
    specialize (E5 Hn0). rewrite <- E2 in Hnm.
    destruct (pinchTrace_pending mid (pinchFrame f0 h) E1 (proj1 E5) Hheld Hnm)
      as (M1 & M2 & M3 & _).
    destruct (pinchFrame_release frel (pinchRun mid (pinchFrame f0 h)) M2 Hrel)
      as (R1 & _ & R3 & R4 & R5).
    change (pinchRun (f0 :: mid ++ [frel]) h)
      with (pinchRun (mid ++ [frel]) (pinchFrame f0 h)).
    rewrite pinchRun_app. cbn [pinchTrace pinchRun fold_left].
    rewrite pinchTrace_app. cbn [pinchTrace].
    split; [|split].
    + constructor; [exact E5|]. apply Forall_app. split; [exact M1|].
      constructor; [split; assumption | constructor].
    + exact R1.
    + exact (eq_trans R5 M3).
  - intros h f0 fs before f after Hp Hd Hheld Heq Hnot Hf s.
    destruct (hold_from_idle h f0 fs before f after Hp Hd Hheld Heq Hnot Hf)
      as (T1 & T2 & T3 & T4 & T5 & _).
    auto.
  - intros h f0 fs Hp Hd Hheld Hex.
    destruct (first_debounced _ _ Hex) as (before & f & after & Heq & Hnot & Hf).
    destruct (hold_from_idle h f0 fs before f after Hp Hd Hheld Heq Hnot Hf)
      as (T1 & T2 & T3 & T4 & T5 & T6).
    split; [|exact T6].
    rewrite T1, confirmEdges_split, T4.
    rewrite (confirmEdges_none _ (unconfirmed_no_edge _ T2)).
    rewrite (confirmEdges_none _ (confirmed_no_edge _ T5)).
    reflexivity.
Qed.

Lemma pinch_debounce_hysteresis_witness :
  let tap := [ mkFrame (3 / 100) 1000 1000; mkFrame (5 / 100) 1033 1033;
               mkFrame (8 / 100) 1066 1066; mkFrame (10 / 100) 1099 1099 ] in
  let hold := [ mkFrame (3 / 100) 1000 1000; mkFrame (5 / 100) 1050 1050;
                mkFrame (4 / 100) 1100 1100; mkFrame (7 / 100) 1150 1150;
                mkFrame (2 / 100) 1200 1200 ] in
  Forall unconfirmed (pinchTrace tap createHandState)
  /\ confirmEdges (pinchTrace hold createHandState) = 1%nat
  /\ pinchConfirmed (pinchRun hold createHandState) = true.
Proof.
  intros tap hold.
  destruct pinch_debounce_hysteresis as (Htap & _ & Hhold).
  split.
  - apply (Htap createHandState (mkFrame (3 / 100) 1000 1000)
             [mkFrame (5 / 100) 1033 1033; mkFrame (8 / 100) 1066 1066]
             (mkFrame (10 / 100) 1099 1099)).
    + reflexivity.
    + unfold PINCH_THRESHOLD. cbn. lra.
    + repeat constructor; unfold held, RELEASE_THRESHOLD; cbn; lra.
    + unfold RELEASE_THRESHOLD. cbn. lra.
    + repeat constructor; cbn; lra.
    + unfold PINCH_DEBOUNCE_MS. cbn. lra.
  - apply (Hhold createHandState (mkFrame (3 / 100) 1000 1000)
             [mkFrame (5 / 100) 1050 1050; mkFrame (4 / 100) 1100 1100;
              mkFrame (7 / 100) 1150 1150; mkFrame (2 / 100) 1200 1200]).
    + reflexivity.
    + unfold PINCH_THRESHOLD. cbn. lra.
    + repeat constructor; unfold held, RELEASE_THRESHOLD; cbn; lra.
    + do 3 apply Exists_cons_tl. apply Exists_cons_hd.
      unfold debounced, PINCH_DEBOUNCE_MS. cbn. lra.
Defined.

(** [processOneHand] runs the pinch state machine on the thumb-index
    distance of the frame: the steps before it leave the pinch fields
    alone. *)
Lemma pinchMachine_pinch_fields d t1 t2 h h' :
  isPinching h = isPinching h' ->
  pinchStartTime h = pinchStartTime h' ->
  pinchConfirmed h = pinchConfirmed h' ->
  let s := pinchMachine d t1 t2 h in
  let s' := pinchMachine d t1 t2 h' in
  isPinching s = isPinching s' /\ pinchStartTime s = pinchStartTime s'
  /\ pinchConfirmed s = pinchConfirmed s'
  /\ pinchJustConfirmed s = pinchJustConfirmed s'
  /\ pinchJustReleased s = pinchJustReleased s'.
Proof.
  intros H1 H2 H3. unfold pinchMachine.
  cbn [with_pinch isPinching pinchStartTime pinchConfirmed pinchJustConfirmed
       pinchJustReleased].
  rewrite <- H1, <- H3.
  destruct (isPinching h), (pinchConfirmed h),
    (Rltb d PINCH_THRESHOLD), (Rltb RELEASE_THRESHOLD d);
    cbn [negb andb with_pinch isPinching pinchStartTime pinchConfirmed
         pinchJustConfirmed pinchJustReleased];
    rewrite <- ?H1, <- ?H2, <- ?H3;
    repeat match goal with
           | |- context [Rleb ?a ?b] => destruct (Rleb a b)
           | H : isPinching _ = _ |- _ => rewrite H
           | H : pinchConfirmed _ = _ |- _ => rewrite H
           end;
    cbn; auto.
Qed.

Lemma processOneHand_pinch h lm cw ch t1 t2 :
  (21 <= List.length lm)%nat ->
  let s := processOneHand h (Some lm) cw ch t1 t2 in
  let s' := pinchMachine (dist (at_index lm THUMB_TIP) (at_index lm INDEX_TIP))
                         t1 t2 h in
  isPinching s = isPinching s' /\ pinchStartTime s = pinchStartTime s'
  /\ pinchConfirmed s = pinchConfirmed s'
  /\ pinchJustConfirmed s = pinchJustConfirmed s'
  /\ pinchJustReleased s = pinchJustReleased s'.
Proof.
  intros Hlen. unfold processOneHand.
  destruct (Nat.ltb_spec (List.length lm) 21) as [Hlt|_]; [lia|].
  apply pinchMachine_pinch_fields;
    repeat match goal with
           | |- context [if ?c then _ else _] => destruct c
           end; reflexivity.
Qed.

(** ** Losing the hand *)

Lemma pinchMachine_cursors d t1 t2 h :
  cursor (pinchMachine d t1 t2 h) = cursor h
  /\ smoothCursor (pinchMachine d t1 t2 h) = smoothCursor h
  /\ prevSmoothCursor (pinchMachine d t1 t2 h) = prevSmoothCursor h.
Proof.
  unfold pinchMachine.
  repeat match goal with
         | |- context [if ?c then _ else _] => destruct c
         end; cbn; auto.
Qed.

Lemma processOneHand_cursor h lm cw ch t1 t2 :
  (21 <= List.length lm)%nat ->
  cursor (processOneHand h (Some lm) cw ch t1 t2)
  = mkPoint ((1 - px (at_index lm INDEX_TIP)) * cw)
            (py (at_index lm INDEX_TIP) * ch).
Proof.
  intros Hlen. unfold processOneHand.
  destruct (Nat.ltb_spec (List.length lm) 21) as [Hlt|_]; [lia|].
  cbv zeta.
  match goal with
  | |- cursor (pinchMachine ?d ?a ?b ?x) = _ =>
      rewrite (proj1 (pinchMachine_cursors d a b x))
  end.
  repeat match goal with
         | |- context [if ?c then _ else _] => destruct c
         end; reflexivity.
Qed.

(** C8, as the code has it. In a frame in which a hand role is given no
    landmark list, or fewer than 21 landmarks, [detected] becomes false,
    [landmarks] absent, the four pinch flags false, the three gesture
    modes ['none'] and the candidate frame count 0; [pinchStartTime],
    [cursor], [smoothCursor] and [prevSmoothCursor] keep the values they
    had before the frame. *)
Theorem processOneHand_resets_flags_on_missing_hand :
  forall (h : HandState) (lms : option (list Point))
         (canvasWidth canvasHeight now1 now2 : R),
    lms = None
    \/ (exists lm, lms = Some lm /\ (List.length lm < 21)%nat) ->
    let s := processOneHand h lms canvasWidth canvasHeight now1 now2 in
    detected s = false /\ landmarks s = None
    /\ isPinching s = false /\ pinchConfirmed s = false
    /\ pinchJustConfirmed s = false /\ pinchJustReleased s = false
    /\ gestureMode s = GNone /\ prevGestureMode s = GNone
    /\ gestureCandidate s = GNone /\ gestureCandidateFrames s = 0%nat
    /\ pinchStartTime s = pinchStartTime h
    /\ cursor s = cursor h
    /\ smoothCursor s = smoothCursor h
    /\ prevSmoothCursor s = prevSmoothCursor h.
Proof.
  intros h lms cw ch t1 t2 Hmiss s.
  assert (Hs : s = resetOneHand h).
  { subst s. destruct Hmiss as [->|[lm [-> Hlen]]]; [reflexivity|].
    unfold processOneHand.
    destruct (Nat.ltb_spec (List.length lm) 21); [reflexivity | lia]. }
  rewrite Hs. cbn. repeat split; reflexivity.
Qed.

Lemma processOneHand_resets_flags_on_missing_hand_witness :
  let h := mkHand true (Some (repeat (mkPoint (1 / 2) (1 / 2)) 21))
                  (mkPoint 320 240) (mkPoint 300 250) (mkPoint 290 255)
                  true 1000 true false false GPinch GPinch GPinch 7 in
  let s := processOneHand h (Some (repeat (mkPoint (1 / 2) (1 / 2)) 20))
                          640 480 1500 1500 in
  detected s = false /\ pinchConfirmed s = false /\ gestureMode s = GNone
  /\ pinchStartTime s = 1000 /\ cursor s = mkPoint 320 240.
Proof.
  intros h s.
  assert (Hmiss : Some (repeat (mkPoint (1 / 2) (1 / 2)) 20) = None
                  \/ (exists lm, Some (repeat (mkPoint (1 / 2) (1 / 2)) 20)
                                 = Some lm /\ (List.length lm < 21)%nat)).
  { right. eexists. split; [reflexivity|]. cbn. lia. }
  destruct (processOneHand_resets_flags_on_missing_hand h _ 640 480 1500 1500
              Hmiss)
    as (H1 & _ & _ & H4 & _ & _ & H7 & _ & _ & _ & H11 & H12 & _).
  repeat split; assumption.
Defined.

(** C8, as stated, fails: after a frame that engaged a pinch at time 1000
    with the index tip at the centre of a 640 x 480 canvas, a frame without
    landmarks leaves [pinchStartTime] at 1000 and the cursor at
    (320, 240); the state is not the neutral initial one. *)
Lemma reset_keeps_pinchStartTime_and_cursor :
  let lm := repeat (mkPoint (1 / 2) (1 / 2)) 21 in
  let h1 := processOneHand createHandState (Some lm) 640 480 1000 1000 in
  let h2 := processOneHand h1 None 640 480 1016 1016 in
  pinchStartTime h2 = 1000
  /\ pinchStartTime h2 <> pinchStartTime createHandState
  /\ cursor h2 <> cursor createHandState
  /\ h2 <> createHandState.
Proof.
  intros lm h1 h2.
  assert (Hlen : (21 <= List.length lm)%nat) by (cbn; lia).
  assert (Hd : dist (at_index lm THUMB_TIP) (at_index lm INDEX_TIP)
               < PINCH_THRESHOLD).
  { unfold dist, PINCH_THRESHOLD. cbn [lm repeat at_index nth THUMB_TIP
                                       INDEX_TIP px py].
    replace ((1 / 2 - 1 / 2) ^ 2 + (1 / 2 - 1 / 2) ^ 2) with 0 by ring.
    rewrite sqrt_0. lra. }
  assert (Hstart : pinchStartTime h2 = 1000).
  { change (pinchStartTime h2) with (pinchStartTime h1).
    destruct (processOneHand_pinch createHandState lm 640 480 1000 1000 Hlen)
      as (_ & E & _).
    fold h1 in E. rewrite E.
    destruct (pinchFrame_engage
                (mkFrame (dist (at_index lm THUMB_TIP) (at_index lm INDEX_TIP))
                         1000 1000) createHandState eq_refl Hd)
      as (_ & E2 & _).
    exact E2. }
  assert (Hcur : cursor h2 <> cursor createHandState).
  { change (cursor h2) with (cursor h1). unfold h1.
    rewrite (processOneHand_cursor createHandState lm 640 480 1000 1000 Hlen).
    cbn [lm repeat at_index nth INDEX_TIP px py createHandState cursor].
    intros H. injection H as Hx Hy. lra. }
  split; [exact Hstart|]. split; [|split].
  - rewrite Hstart. cbn. lra.
  - exact Hcur.
  - intros H. apply Hcur. now rewrite H.
Qed.

(** ** JSON export *)

Lemma nth_error_map_some {A B} (g : A -> B) (l : list A) i a :
  nth_error l i = Some a -> nth_error (map g l) i = Some (g a).
Proof. intros H. rewrite nth_error_map, H. reflexivity. Qed.

(** C7. JSON export: for every workspace, the empty one included,
    [exportProjectJSON] returns [true]; the document it hands over has
    [version] equal to ["1.0"], a [workspace] record holding the current
    zoom, offsetX and offsetY, a [notes] array with one record per note,
    in order, each with exactly the fields id, x, y, width, height, text
    and color of that note and no [selected] field, and a [links] array
    with one record of id, from and to per link, in order. *)
Theorem exportProjectJSON_document :
  forall (isoNow stamp : string) (w : State),
    let doc := dl_document (snd (exportProjectJSON isoNow stamp w)) in
    fst (exportProjectJSON isoNow stamp w) = true
    /\ keys doc = ["version"; "timestamp"; "workspace"; "notes"; "links"]
    /\ field "version" doc = Some (JString "1.0")
    /\ field "workspace" doc
       = Some (JObject [ ("zoom", JNumber (zoom w));
                         ("offsetX", JNumber (offsetX w));
                         ("offsetY", JNumber (offsetY w)) ])
    /\ (exists recs,
          field "notes" doc = Some (JArray recs)
          /\ List.length recs = List.length (notes w)
          /\ (forall i n, nth_error (notes w) i = Some n ->
                nth_error recs i
                = Some (JObject [ ("id", JString (n_id n));
                                  ("x", JNumber (n_x n));
                                  ("y", JNumber (n_y n));
                                  ("width", JNumber (n_width n));
                                  ("height", JNumber (n_height n));
                                  ("text", JString (n_text n));
                                  ("color", JString (n_color n)) ]))
          /\ Forall (fun r =>
                       keys r = ["id"; "x"; "y"; "width"; "height"; "text";
                                 "color"]
                       /\ ~ In "selected" (keys r)) recs)
    /\ (exists recs,
          field "links" doc = Some (JArray recs)
          /\ List.length recs = List.length (links w)
          /\ (forall i l, nth_error (links w) i = Some l ->
                nth_error recs i
                = Some (JObject [ ("id", JString (l_id l));
                                  ("from", JString (l_from l));
                                  ("to", JString (l_to l)) ]))).
Proof.
  intros isoNow stamp w doc. subst doc.
  cbn [exportProjectJSON fst snd dl_document].
  split; [reflexivity|]. split; [reflexivity|]. split; [reflexivity|].
  split; [reflexivity|]. split.
  - exists (map noteRecord (notes w)).
    split; [reflexivity|]. split; [apply length_map|]. split.
    + intros i n H. now apply (nth_error_map_some noteRecord).
    + apply Forall_forall. intros r Hr. apply in_map_iff in Hr.
      destruct Hr as [n [<- _]]. split; [reflexivity|].
      cbn. intros H.
      repeat (destruct H as [H|H]; [discriminate|]). exact H.
  - exists (map linkRecord (links w)).
    split; [reflexivity|]. split; [apply length_map|].
    intros i l H. now apply (nth_error_map_some linkRecord).
Qed.

Lemma exportProjectJSON_document_witness :
  let A := mkNote "note_1" 300 240 200 120 "Welcome to VisualNote" true
                  "#8b5cf6" in
  let B := mkNote "note_2" 650 190 200 120 "New Note" false "#ec4899" in
  let w := mkState [A; B] [mkLink "link_1" "note_1" "note_2"] 1 0 0
                   ["note_1"] None 2 1 in
  exists recs,
    field "notes" (dl_document (snd (exportProjectJSON "2024-01-01T00:00:00.000Z"
                                       "20240101_000000" w)))
    = Some (JArray recs)
    /\ List.length recs = 2%nat
    /\ nth_error recs 1
       = Some (JObject [ ("id", JString "note_2"); ("x", JNumber 650);
                         ("y", JNumber 190); ("width", JNumber 200);
                         ("height", JNumber 120); ("text", JString "New Note");
                         ("color", JString "#ec4899") ]).
Proof.
  intros A B w.
  destruct (exportProjectJSON_document "2024-01-01T00:00:00.000Z"
              "20240101_000000" w)
    as (_ & _ & _ & _ & (recs & Hf & Hlen & Hnth & _) & _).
  exists recs. split; [exact Hf|]. split; [exact Hlen|].
  apply (Hnth 1%nat B). reflexivity.
Defined.

(** * Further properties of the workspace, gesture and export code *)

(** ** View transforms *)






(** ** Bounding box of the notes *)







(** ** Selection *)

Lemma set_selected_same n : set_selected (n_selected n) n = n.
Proof. now destruct n. Qed.

Lemma set_selected_twice b c n :
  set_selected b (set_selected c n) = set_selected b n.
Proof. reflexivity. Qed.

Lemma filter_neq_absent (id : string) (ids : list string) :
  ~ In id ids -> filter (fun sid => negb (String.eqb sid id)) ids = ids.
Proof.
  induction ids as [|a ids IH]; intros Hno; [reflexivity|].
  cbn. destruct (String.eqb_spec a id) as [->|Hne].
  - exfalso. apply Hno. now left.
  - cbn. rewrite IH; [reflexivity|]. intros H. apply Hno. now right.
Qed.

Lemma includes_app l1 l2 s : includes (l1 ++ l2) s = includes l1 s || includes l2 s.
Proof. unfold includes. apply existsb_app. Qed.

Lemma includes_snoc_other ids id s :
  s <> id -> includes (ids ++ [id]) s = includes ids s.
Proof.
  intros Hne. rewrite includes_app. unfold includes at 2. cbn.
  apply String.eqb_neq in Hne. rewrite Hne. now rewrite !orb_false_r.
Qed.

Lemma selectNote_ids id add w :
  selectedNoteIds (selectNote id add w)
  = let old := if add then selectedNoteIds w else [] in
    if includes old id then old else old ++ [id].
Proof. unfold selectNote. destruct add; reflexivity. Qed.

Lemma selectNote_synced id add w : selection_synced (selectNote id add w).
Proof.
  unfold selectNote. intros n Hin.
  cbn [notes selectedNoteIds set_notes set_selectedNoteIds] in *.
  apply in_map_iff in Hin. destruct Hin as [n0 [<- _]]. reflexivity.
Qed.

(** X4. [selectNote] re-derives every flag from the selected-id list: after
    it, in any workspace whatever the flags were before, each note is
    flagged exactly when its id is selected.  The id it is given is
    selected afterwards; a non-additive call leaves it as the only
    selected id; an additive call keeps the ids selected before and adds
    no duplicate. *)
Theorem selectNote_resynchronizes :
  forall (id : string) (add : bool) (w : State),
    selection_synced (selectNote id add w)
    /\ In id (selectedNoteIds (selectNote id add w))
    /\ selectedNoteIds (selectNote id false w) = [id]
    /\ (forall sid, In sid (selectedNoteIds w) ->
          In sid (selectedNoteIds (selectNote id true w)))
    /\ (NoDup (selectedNoteIds w) ->
          NoDup (selectedNoteIds (selectNote id true w))).
Proof.
  intros id add w. split; [|split; [|split; [|split]]].
  - apply selectNote_synced.
  - rewrite selectNote_ids. cbn zeta.
    destruct (includes (if add then selectedNoteIds w else []) id) eqn:E.
    + now apply includes_In.
    + apply in_or_app. right. now left.
  - reflexivity.
  - intros sid Hin. rewrite selectNote_ids. cbn zeta.
    destruct (includes (selectedNoteIds w) id); [exact Hin|].
    apply in_or_app. now left.
  - intros Hnd. rewrite selectNote_ids. cbn zeta.
    destruct (includes (selectedNoteIds w) id) eqn:E; [exact Hnd|].
    apply NoDup_app; [exact Hnd | repeat constructor; intros [] |].
    intros sid Hin [<-|[]].
    apply includes_In in Hin. congruence.
Qed.

Lemma selectNote_resynchronizes_witness :
  let w := snd (createNote 0 0 None (snd (createNote 9 9 None initial))) in
  NoDup (selectedNoteIds (selectNote "note_2" true (selectNote "note_1" false w)))
  /\ In "note_1"
        (selectedNoteIds (selectNote "note_2" true (selectNote "note_1" false w))).
Proof.
  intros w.
  destruct (selectNote_resynchronizes "note_2" true (selectNote "note_1" false w))
    as (_ & _ & _ & Hkeep & Hnd).
  split.
  - apply Hnd. cbn. repeat constructor. intros [].
  - apply Hkeep. cbn. now left.
Defined.

Lemma deselect_undoes_flags ns sel id :
  NoDup (map n_id ns) ->
  (forall n, In n ns -> n_selected n = includes sel (n_id n)) ->
  ~ In id sel ->
  update_first (has_id id) (set_selected false)
    (map (fun n => set_selected (includes (sel ++ [id]) (n_id n)) n) ns)
  = ns.
Proof.
  intros Hnd Hsync Hno.
  assert (Hfalse : includes sel id = false).
  { destruct (includes sel id) eqn:E; [|reflexivity].
    exfalso. now apply Hno, includes_In. }
  induction ns as [|n ns IH]; [reflexivity|].
  cbn in Hnd. apply NoDup_cons_iff in Hnd. destruct Hnd as [Hfresh Hrest].
  cbn [map update_first]. unfold has_id at 1. cbn [set_selected n_id].
  destruct (String.eqb_spec (n_id n) id) as [E|E].
  - f_equal.
    + rewrite set_selected_twice.
      transitivity (set_selected (n_selected n) n);
        [|apply set_selected_same].
      now rewrite (Hsync n (or_introl eq_refl)), E, Hfalse.
    + rewrite <- (map_id ns) at 2. apply map_ext_in. intros m Hm.
      assert (Hne : n_id m <> id).
      { intros Hm'. apply Hfresh. rewrite E, <- Hm'. now apply in_map. }
      rewrite includes_snoc_other by exact Hne.
      rewrite <- (Hsync m (or_intror Hm)). apply set_selected_same.
  - f_equal.
    + rewrite includes_snoc_other by exact E.
      rewrite <- (Hsync n (or_introl eq_refl)). apply set_selected_same.
    + apply IH; [exact Hrest|]. intros m Hm. apply Hsync. now right.
Qed.

(** X5. Selecting a note additively and deselecting it again is a round
    trip: in a workspace whose flags agree with the selected ids and whose
    note ids are pairwise distinct, [deselectNote id] after
    [selectNote id true] gives back the workspace, for every id that was
    not selected. *)
Theorem deselect_after_select_round_trip :
  forall (id : string) (w : State),
    selection_synced w -> NoDup (map n_id (notes w)) ->
    ~ In id (selectedNoteIds w) ->
    deselectNote id (selectNote id true w) = w.
Proof.
  intros id w Hsync Hnd Hno.
  assert (Hinc : includes (selectedNoteIds w) id = false).
  { destruct (includes (selectedNoteIds w) id) eqn:E; [|reflexivity].
    exfalso. now apply Hno, includes_In. }
  unfold deselectNote, selectNote.
  cbn [notes selectedNoteIds set_notes set_selectedNoteIds links zoom offsetX
       offsetY linkSourceId noteCounter linkCounter].
  rewrite Hinc.
  rewrite (deselect_undoes_flags (notes w) (selectedNoteIds w) id Hnd Hsync Hno).
  rewrite filter_app. cbn [filter]. rewrite String.eqb_refl. cbn [negb].
  rewrite app_nil_r, (filter_neq_absent id _ Hno).
  now destruct w.
Qed.

Lemma deselect_after_select_round_trip_witness :
  let w := selectNote "note_1" false
             (snd (createNote 0 0 None (snd (createNote 9 9 None initial)))) in
  deselectNote "note_2" (selectNote "note_2" true w) = w.
Proof.
  intros w. apply deselect_after_select_round_trip.
  - apply selectNote_synced.
  - cbn. repeat constructor; cbn; intuition discriminate.
  - cbn. intros [H|[]]. discriminate.
Defined.

(** ** Hit testing of notes *)

Lemma Rleb_true a b : Rleb a b = true <-> a <= b.
Proof. unfold Rleb. destruct (Rle_dec a b); split; auto; discriminate. Qed.

Lemma Rltb_true a b : Rltb a b = true <-> a < b.
Proof. unfold Rltb. destruct (Rlt_dec a b); split; auto; discriminate. Qed.

Lemma containsPoint_inside x y n : containsPoint x y n = true <-> inside x y n.
Proof.
  unfold containsPoint, inside.
  rewrite !andb_true_iff, !Rleb_true. tauto.
Qed.

Lemma containsPoint_outside x y n : containsPoint x y n = false <-> ~ inside x y n.
Proof.
  rewrite <- containsPoint_inside. destruct (containsPoint x y n); split;
    congruence.
Qed.

(** The last element of a list that passes a test. *)
Lemma find_rev_some {A} (p : A -> bool) (l : list A) (a : A) :
  find p (rev l) = Some a
  <-> exists before after,
        l = before ++ a :: after /\ p a = true
        /\ Forall (fun m => p m = false) after.
Proof.
  split.
  - revert a. induction l as [|x l IH] using rev_ind; intros a H;
      [discriminate|].
    rewrite rev_unit in H. cbn in H. destruct (p x) eqn:Ex.
    + injection H as <-. exists l, []. auto.
    + destruct (IH a H) as (before & after & -> & Ha & Hafter).
      exists before, (after ++ [x]). rewrite <- app_assoc. cbn.
      split; [reflexivity|]. split; [exact Ha|].
      apply Forall_app. auto.
  - intros (before & after & -> & Ha & Hafter).
    rewrite rev_app_distr. cbn [rev]. rewrite <- app_assoc. cbn [app].
    induction after as [|m after IH] using rev_ind.
    + cbn. now rewrite Ha.
    + apply Forall_app in Hafter. destruct Hafter as [Hafter Hm].
      inversion Hm as [|? ? Hpm _]; subst.
      rewrite rev_unit. cbn. rewrite Hpm. now apply IH.
Qed.

Lemma find_rev_none {A} (p : A -> bool) (l : list A) :
  find p (rev l) = None <-> forall m, In m l -> p m = false.
Proof.
  split.
  - intros H m Hm. apply (find_none p (rev l) H). now apply in_rev in Hm.
  - intros H. destruct (find p (rev l)) as [a|] eqn:E; [|reflexivity].
    apply find_some in E. destruct E as [Hin Hp].
    apply in_rev in Hin. rewrite (H a Hin) in Hp. discriminate.
Qed.

(** X6. [hitTestNote] returns the topmost note under the point: it returns
    a note exactly when that note contains the point and no note after it
    in [workspace.notes] does, and [null] exactly when no note contains
    the point. *)
Theorem hitTestNote_topmost :
  forall (worldX worldY : R) (w : State),
    (forall n,
        hitTestNote worldX worldY w = Some n
        <-> exists before after,
              notes w = before ++ n :: after
              /\ inside worldX worldY n
              /\ Forall (fun m => ~ inside worldX worldY m) after)
    /\ (hitTestNote worldX worldY w = None
        <-> forall n, In n (notes w) -> ~ inside worldX worldY n).
Proof.
  intros x y w. unfold hitTestNote. split.
  - intros n. rewrite find_rev_some.
    split; intros (before & after & Hn & Hin & Hafter);
      exists before, after; (split; [exact Hn|]); split.
    + now apply containsPoint_inside.
    + revert Hafter. apply Forall_impl. intros m.
      apply containsPoint_outside.
    + now apply containsPoint_inside.
    + revert Hafter. apply Forall_impl. intros m.
      apply containsPoint_outside.
  - rewrite find_rev_none. split; intros H n Hn.
    + apply containsPoint_outside. now apply H.
    + apply containsPoint_outside. now apply H.
Qed.



(** ** Moving notes and editing their text *)

Lemma set_notes_same w : set_notes w (notes w) = w.
Proof. now destruct w. Qed.

Lemma update_first_twice id f g ns :
  (forall n, n_id (g n) = n_id n) ->
  update_first (has_id id) f (update_first (has_id id) g ns)
  = update_first (has_id id) (fun n => f (g n)) ns.
Proof.
  intros Hg. induction ns as [|n ns IH]; [reflexivity|].
  cbn. destruct (has_id id n) eqn:E; cbn.
  - unfold has_id in *. now rewrite Hg, E.
  - now rewrite E, IH.
Qed.



Lemma update_first_absent id f ns :
  find (has_id id) ns = None -> update_first (has_id id) f ns = ns.
Proof.
  induction ns as [|n ns IH]; [reflexivity|].
  cbn. destruct (has_id id n); [discriminate|].
  intros H. now rewrite IH.
Qed.

Lemma find_update_first id f ns :
  (forall n, n_id (f n) = n_id n) ->
  find (has_id id) (update_first (has_id id) f ns)
  = option_map f (find (has_id id) ns).
Proof.
  intros Hf. induction ns as [|n ns IH]; [reflexivity|].
  cbn. destruct (has_id id n) eqn:E; cbn.
  - unfold has_id in *. now rewrite Hf, E.
  - now rewrite E, IH.
Qed.

Lemma find_update_first_other id id' f ns :
  (forall n, n_id (f n) = n_id n) -> id' <> id ->
  find (has_id id') (update_first (has_id id) f ns) = find (has_id id') ns.
Proof.
  intros Hf Hne. induction ns as [|n ns IH]; [reflexivity|].
  cbn. destruct (has_id id n) eqn:E; cbn.
  - unfold has_id in *. rewrite Hf. apply String.eqb_eq in E.
    rewrite E. apply not_eq_sym, String.eqb_neq in Hne. now rewrite Hne.
  - now rewrite IH.
Qed.





(** X9. Text updates look up as written: after [updateNoteText id t], the
    note found under [id] is the one found before with its text replaced
    by [t] (and nothing is found if nothing was); the note found under any
    other id is the same as before; a second update of the same id
    overwrites the first; an id that no note has changes nothing. *)
Theorem updateNoteText_lookup :
  forall (id t : string) (w : State),
    getNoteById id (updateNoteText id t w)
      = option_map (set_text t) (getNoteById id w)
    /\ (forall id', id' <> id ->
          getNoteById id' (updateNoteText id t w) = getNoteById id' w)
    /\ (forall t', updateNoteText id t' (updateNoteText id t w)
                   = updateNoteText id t' w)
    /\ (getNoteById id w = None -> updateNoteText id t w = w).
Proof.
  intros id t w. unfold getNoteById, updateNoteText.
  cbn [notes set_notes]. split; [|split; [|split]].
  - now apply find_update_first.
  - intros id' Hne. now apply find_update_first_other.
  - intros t'. unfold set_notes. cbn.
    rewrite update_first_twice by reflexivity. reflexivity.
  - intros H. rewrite update_first_absent by exact H. apply set_notes_same.
Qed.

Lemma updateNoteText_lookup_witness :
  let w := snd (createNote 0 0 None (snd (createNote 9 9 None initial))) in
  getNoteById "note_1" (updateNoteText "note_2" "Idea" w) = getNoteById "note_1" w
  /\ updateNoteText "note_5" "Idea" w = w.
Proof.
  intros w.
  destruct (updateNoteText_lookup "note_2" "Idea" w) as (_ & Hother & _).
  destruct (updateNoteText_lookup "note_5" "Idea" w) as (_ & _ & _ & Habsent).
  split; [apply Hother; discriminate | apply Habsent; reflexivity].
Defined.

Lemma update_first_unique id f ns :
  NoDup (map n_id ns) ->
  update_first (has_id id) f ns
  = map (fun n => if has_id id n then f n else n) ns.
Proof.
  induction ns as [|n ns IH]; intros Hnd; [reflexivity|].
  cbn in Hnd. apply NoDup_cons_iff in Hnd. destruct Hnd as [Hfresh Hrest].
  cbn. destruct (has_id id n) eqn:E.
  - f_equal. rewrite <- (map_id ns) at 1. apply map_ext_in. intros m Hm.
    destruct (has_id id m) eqn:Em; [|reflexivity].
    exfalso. apply Hfresh. unfold has_id in *.
    apply String.eqb_eq in E, Em. rewrite E, <- Em. now apply in_map.
  - now rewrite IH.
Qed.

Lemma moveSelected_fold dx dy ids : forall w,
  NoDup ids -> NoDup (map n_id (notes w)) ->
  notes (fold_left (fun s id => moveNote id dx dy s) ids w)
  = map (fun n => if includes ids (n_id n) then move_by dx dy n else n)
        (notes w).
Proof.
  induction ids as [|id ids IH]; intros w Hids Hnd.
  - cbn. now rewrite map_id.
  - apply NoDup_cons_iff in Hids. destruct Hids as [Hfresh Hrest].
    cbn [fold_left]. rewrite IH; [|exact Hrest|].
    + unfold moveNote. cbn [notes set_notes].
      rewrite update_first_unique by exact Hnd. rewrite map_map.
      apply map_ext. intros n. unfold includes. cbn [existsb].
      unfold has_id. destruct (String.eqb_spec (n_id n) id) as [E|E].
      * cbn [orb move_by n_id]. rewrite E.
        destruct (existsb (String.eqb id) ids) eqn:Ex; [|reflexivity].
        exfalso. apply Hfresh. now apply includes_In.
      * reflexivity.
    + unfold moveNote. cbn [notes set_notes].
      now rewrite update_first_ids.
Qed.

(** X10. Dragging moves exactly the selected notes, each once: in a
    workspace with pairwise distinct note ids and no id selected twice,
    [moveSelectedNotes dx dy] shifts every note whose id is selected by
    [(dx, dy)] and leaves every other note, the links and the selected ids
    as they were. *)
Theorem moveSelectedNotes_moves_selected :
  forall (dx dy : R) (w : State),
    NoDup (map n_id (notes w)) -> NoDup (selectedNoteIds w) ->
    notes (moveSelectedNotes dx dy w)
      = map (fun n => if includes (selectedNoteIds w) (n_id n)
                      then move_by dx dy n else n) (notes w)
    /\ links (moveSelectedNotes dx dy w) = links w
    /\ selectedNoteIds (moveSelectedNotes dx dy w) = selectedNoteIds w.
Proof.
  intros dx dy w Hnd Hsel. unfold moveSelectedNotes. split; [|split].
  - now apply moveSelected_fold.
  - apply (fold_left_preserves (fun s => links s = links w)); auto.
  - apply (fold_left_preserves
             (fun s => selectedNoteIds s = selectedNoteIds w)); auto.
Qed.

Lemma moveSelectedNotes_moves_selected_witness :
  let w := selectNote "note_2" false
             (snd (createNote 0 0 None (snd (createNote 500 500 None initial)))) in
  map n_x (notes (moveSelectedNotes 10 20 w)) = [500 - 200 / 2; 0 - 200 / 2 + 10].
Proof.
  intros w.
  destruct (moveSelectedNotes_moves_selected 10 20 w) as (H & _).
  - cbn. repeat constructor; cbn; intuition discriminate.
  - cbn. repeat constructor. intros [].
  - rewrite H. reflexivity.
Defined.

(** ** Deleting notes *)

Lemma filter_twice {A} (p : A -> bool) (l : list A) :
  filter p (filter p l) = filter p l.
Proof.
  induction l as [|a l IH]; [reflexivity|].
  cbn. destruct (p a) eqn:E; cbn; rewrite ?E, IH; reflexivity.
Qed.

Lemma filter_keeps_all {A} (p : A -> bool) (l : list A) :
  (forall a, In a l -> p a = true) -> filter p l = l.
Proof.
  induction l as [|a l IH]; intros H; [reflexivity|].
  cbn. rewrite (H a (or_introl eq_refl)), IH; [reflexivity|].
  intros b Hb. apply H. now right.
Qed.

Lemma find_other_after_filter id id' ns :
  id' <> id ->
  find (has_id id') (filter (fun n => negb (String.eqb (n_id n) id)) ns)
  = find (has_id id') ns.
Proof.
  intros Hne. induction ns as [|n ns IH]; [reflexivity|].
  cbn. destruct (String.eqb_spec (n_id n) id) as [E|E]; cbn.
  - unfold has_id. rewrite E. apply not_eq_sym, String.eqb_neq in Hne.
    now rewrite Hne.
  - now rewrite IH.
Qed.

(** X11. After [deleteNote id], in any workspace, no note is found under
    [id], no link touches [id] and [id] is not selected, while every other
    id finds the note it found before; deleting twice is deleting once;
    and when [id] is the id of no note, the endpoint of no link and not
    selected, the workspace is returned as it was. *)
Theorem deleteNote_lookups :
  forall (id : string) (w : State),
    getNoteById id (deleteNote id w) = None
    /\ getLinksForNote id (deleteNote id w) = []
    /\ ~ In id (selectedNoteIds (deleteNote id w))
    /\ (forall id', id' <> id ->
          getNoteById id' (deleteNote id w) = getNoteById id' w)
    /\ deleteNote id (deleteNote id w) = deleteNote id w
    /\ (getNoteById id w = None -> getLinksForNote id w = [] ->
        ~ In id (selectedNoteIds w) -> deleteNote id w = w).
Proof.
  intros id w. split; [|split; [|split; [|split; [|split]]]].
  - unfold getNoteById. rewrite deleteNote_notes.
    destruct (find _ _) as [n|] eqn:E; [|reflexivity].
    apply find_some in E. destruct E as [Hin Hid].
    apply filter_In in Hin. unfold has_id in Hid. destruct Hin as [_ Hne].
    now rewrite Hid in Hne.
  - unfold getLinksForNote. rewrite deleteNote_links.
    destruct (filter _ _) as [|l ls] eqn:E; [reflexivity|].
    assert (Hin : In l (l :: ls)) by now left.
    rewrite <- E in Hin. apply filter_In in Hin. destruct Hin as [Hin Ht].
    apply filter_In in Hin. destruct Hin as [_ Hk].
    unfold touches in Ht.
    destruct (String.eqb (l_from l) id), (String.eqb (l_to l) id);
      discriminate.
  - rewrite deleteNote_selected. intros Hin. apply filter_In in Hin.
    destruct Hin as [_ H]. now rewrite String.eqb_refl in H.
  - intros id' Hne. unfold getNoteById. rewrite deleteNote_notes.
    now apply find_other_after_filter.
  - unfold deleteNote, deleteLinksForNote, set_notes, set_links,
      set_selectedNoteIds.
    cbn [notes links zoom offsetX offsetY selectedNoteIds linkSourceId
         noteCounter linkCounter].
    now rewrite !filter_twice.
  - intros Hnote Hlinks Hsel.
    unfold deleteNote, deleteLinksForNote, set_notes, set_links,
      set_selectedNoteIds.
    cbn [notes links zoom offsetX offsetY selectedNoteIds linkSourceId
         noteCounter linkCounter].
    rewrite (filter_neq_absent id _ Hsel).
    rewrite (filter_keeps_all _ (notes w)).
    + rewrite (filter_keeps_all _ (links w)); [now destruct w|].
      intros l Hl. unfold getLinksForNote in Hlinks.
      destruct (touches id l) eqn:Et.
      * assert (Hin : In l (filter (touches id) (links w)))
          by (apply filter_In; auto).
        rewrite Hlinks in Hin. contradiction.
      * unfold touches in Et. apply orb_false_iff in Et.
        destruct Et as [-> ->]. reflexivity.
    + intros n Hn. unfold getNoteById in Hnote.
      apply (find_none _ _ Hnote) in Hn. unfold has_id in Hn. now rewrite Hn.
Qed.

Lemma deleteNote_lookups_witness :
  let w := snd (createNote 0 0 None (snd (createNote 9 9 None initial))) in
  getNoteById "note_2" (deleteNote "note_1" w) = getNoteById "note_2" w
  /\ deleteNote "note_9" w = w.
Proof.
  intros w.
  destruct (deleteNote_lookups "note_1" w) as (_ & _ & _ & Hother & _).
  destruct (deleteNote_lookups "note_9" w) as (_ & _ & _ & _ & _ & Habsent).
  split; [apply Hother; discriminate|].
  apply Habsent; [reflexivity | reflexivity | intros []].
Defined.

Lemma filter_both {A} (p q : A -> bool) (l : list A) :
  filter p (filter q l) = filter (fun a => q a && p a) l.
Proof.
  induction l as [|a l IH]; [reflexivity|].
  cbn. destruct (q a); cbn; [destruct (p a)|]; now rewrite IH.
Qed.

Lemma deleteNotes_fold ids : forall w,
  let w' := fold_left (fun s id => deleteNote id s) ids w in
  notes w' = filter (fun n => negb (includes ids (n_id n))) (notes w)
  /\ links w' = filter (fun l => negb (includes ids (l_from l))
                                 && negb (includes ids (l_to l))) (links w).
Proof.
  induction ids as [|id ids IH]; intros w; cbn zeta.
  - cbn. split; symmetry; now apply filter_keeps_all.
  - cbn [fold_left]. destruct (IH (deleteNote id w)) as [Hn Hl].
    rewrite Hn, Hl, deleteNote_notes, deleteNote_links, !filter_both.
    unfold includes. cbn [existsb]. split; apply filter_ext.
    + intros n. now rewrite negb_orb.
    + intros l. rewrite !negb_orb.
      destruct (String.eqb (l_from l) id), (String.eqb (l_to l) id),
        (existsb (String.eqb (l_from l)) ids),
        (existsb (String.eqb (l_to l)) ids); reflexivity.
Qed.

(** X12. [deleteSelectedNotes], in any workspace, keeps exactly the notes
    whose id is not selected, in order and unflagged, keeps exactly the
    links neither endpoint of which is a selected id, and leaves no id
    selected. *)
Theorem deleteSelectedNotes_result :
  forall w : State,
    notes (deleteSelectedNotes w)
      = map (set_selected false)
            (filter (fun n => negb (includes (selectedNoteIds w) (n_id n)))
                    (notes w))
    /\ links (deleteSelectedNotes w)
      = filter (fun l => negb (includes (selectedNoteIds w) (l_from l))
                         && negb (includes (selectedNoteIds w) (l_to l)))
               (links w)
    /\ selectedNoteIds (deleteSelectedNotes w) = [].
Proof.
  intros w. unfold deleteSelectedNotes.
  destruct (deleteNotes_fold (selectedNoteIds w) w) as [Hn Hl].
  cbn [clearSelection notes links selectedNoteIds set_notes
       set_selectedNoteIds].
  rewrite Hn, Hl. auto.
Qed.

(** ** What every reachable workspace satisfies *)

Lemma Forall_update_first (P : Note -> Prop) p f ns :
  (forall n, P n -> P (f n)) -> Forall P ns -> Forall P (update_first p f ns).
Proof.
  intros Hf. induction 1 as [|n ns Hn Hns IH]; [constructor|].
  cbn. destruct (p n); constructor; auto.
Qed.

Lemma Forall_kept {A} (P : A -> Prop) (keep : A -> bool) (l : list A) :
  Forall P l -> Forall P (filter keep l).
Proof.
  induction 1 as [|a l Ha Hl IH]; [constructor|].
  cbn. destruct (keep a); [constructor|]; auto.
Qed.

Lemma note_issued_mono c c' n :
  (c <= c')%nat -> note_issued c n -> note_issued c' n.
Proof.
  intros Hc (H1 & H2 & k & Hk & H3). split; [exact H1|]. split; [exact H2|].
  exists k. split; [lia | exact H3].
Qed.

Lemma notes_consistent_update id f w :
  (forall n, n_id (f n) = n_id n) ->
  (forall c n, note_issued c n -> note_issued c (f n)) ->
  notes_consistent w ->
  notes_consistent (set_notes w (update_first (has_id id) f (notes w))).
Proof.
  intros Hid Hf [H1 H2 H3]. constructor; cbn [notes set_notes noteCounter
                                              selectedNoteIds].
  - now rewrite update_first_ids.
  - apply Forall_update_first; [apply Hf | exact H2].
  - exact H3.
Qed.

Lemma notes_consistent_clear w :
  notes_consistent w -> notes_consistent (clearSelection w).
Proof.
  intros [H1 H2 H3]. constructor; cbn.
  - now rewrite (map_id_set_selected (fun _ => false)).
  - apply Forall_map. revert H2. apply Forall_impl. intros n H. exact H.
  - constructor.
Qed.

Lemma notes_consistent_delete id w :
  notes_consistent w -> notes_consistent (deleteNote id w).
Proof.
  intros [H1 H2 H3]. constructor.
  - rewrite deleteNote_notes. now apply distinct_ids_filter.
  - rewrite deleteNote_notes. now apply Forall_kept.
  - rewrite deleteNote_selected. now apply NoDup_filter.
Qed.

Lemma notes_consistent_create wx wy t w :
  notes_consistent w -> notes_consistent (snd (createNote wx wy t w)).
Proof.
  intros [H1 H2 H3]. constructor; cbn [createNote snd notes noteCounter
                                        selectedNoteIds].
  - rewrite map_app. cbn [map n_id].
    apply NoDup_app; [exact H1 | repeat constructor; intros [] |].
    intros id Hin [<-|[]]. apply in_map_iff in Hin.
    destruct Hin as [n [Hid Hn]].
    rewrite Forall_forall in H2. destruct (H2 n Hn) as (_ & _ & k & Hk & Hn' & _).
    rewrite Hn' in Hid. apply noteId_inj in Hid. lia.
  - apply Forall_app. split.
    + revert H2. apply Forall_impl. intros n. apply note_issued_mono. lia.
    + repeat constructor. exists (S (noteCounter w)).
      split; [lia|]. split; reflexivity.
  - exact H3.
Qed.

Lemma notes_consistent_select id add w :
  notes_consistent w -> notes_consistent (selectNote id add w).
Proof.
  intros H.
  assert (Hw1 : notes_consistent (if add then w else clearSelection w))
    by (destruct add; [exact H | now apply notes_consistent_clear]).
  unfold selectNote. destruct Hw1 as [H1 H2 H3].
  set (w1 := if add then w else clearSelection w) in *.
  constructor; cbn [notes set_notes set_selectedNoteIds selectedNoteIds
                    noteCounter].
  - now rewrite (map_id_set_selected
                   (fun n => includes
                      (if includes (selectedNoteIds w1) id
                       then selectedNoteIds w1
                       else selectedNoteIds w1 ++ [id]) (n_id n))).
  - apply Forall_map. revert H2. apply Forall_impl. intros n Hn. exact Hn.
  - destruct (includes (selectedNoteIds w1) id) eqn:E; [exact H3|].
    apply NoDup_app; [exact H3 | repeat constructor; intros [] |].
    intros sid Hin [<-|[]]. apply includes_In in Hin. congruence.
Qed.

Lemma notes_consistent_deselect id w :
  notes_consistent w -> notes_consistent (deselectNote id w).
Proof.
  intros [H1 H2 H3]. constructor; cbn [deselectNote notes set_notes
                                        set_selectedNoteIds selectedNoteIds
                                        noteCounter].
  - now rewrite update_first_ids.
  - apply Forall_update_first; [|exact H2]. intros n Hn. exact Hn.
  - now apply NoDup_filter.
Qed.

Lemma notes_consistent_frame w w' :
  notes w' = notes w -> selectedNoteIds w' = selectedNoteIds w ->
  noteCounter w' = noteCounter w -> notes_consistent w -> notes_consistent w'.
Proof.
  intros Hn Hs Hc [H1 H2 H3]. constructor; rewrite ?Hn, ?Hs, ?Hc; assumption.
Qed.

Lemma exec_notes_consistent op w :
  notes_consistent w -> notes_consistent (exec op w).
Proof.
  intros H. destruct op; cbn [exec].
  - now apply notes_consistent_create.
  - now apply notes_consistent_delete.
  - unfold deleteSelectedNotes. apply notes_consistent_clear.
    apply (fold_left_preserves notes_consistent); [|exact H].
    intros s id'. apply notes_consistent_delete.
  - now apply notes_consistent_select.
  - now apply notes_consistent_deselect.
  - now apply notes_consistent_clear.
  - apply notes_consistent_update; auto.
  - unfold moveSelectedNotes.
    apply (fold_left_preserves notes_consistent); [|exact H].
    intros s id'. apply notes_consistent_update; auto.
  - apply notes_consistent_update; auto.
  - destruct (createLink_frame fromId toId w) as (E1 & E2 & E3).
    now apply (notes_consistent_frame w).
  - now apply (notes_consistent_frame w).
  - now apply (notes_consistent_frame w).
  - destruct (applyZoom_frame delta centerX centerY w) as (E1 & _ & E2 & E3).
    now apply (notes_consistent_frame w).
  - destruct (applyZoomFactor_frame factor centerX centerY w)
      as (E1 & _ & E2 & E3).
    now apply (notes_consistent_frame w).
  - now apply (notes_consistent_frame w).
Qed.

(** X13. In every workspace reachable from the initial one by any
    sequence of operations: note ids are pairwise distinct; every note is
    200 x 120 and carries the id [note_<k>] and the palette entry of index
    [k mod 8] of its creation rank [k], with [k] at most the number of
    notes created so far; and no id is selected twice. *)
Theorem reachable_notes_consistent :
  forall w : State,
    reachable w ->
    NoDup (map n_id (notes w))
    /\ (forall n, In n (notes w) ->
          n_width n = 200 /\ n_height n = 120
          /\ exists k, (1 <= k <= noteCounter w)%nat
                       /\ n_id n = noteId k
                       /\ n_color n = nth (k mod 8) NOTE_COLORS "")
    /\ NoDup (selectedNoteIds w).
Proof.
  intros w [ops ->].
  assert (H : notes_consistent (run ops initial)).
  { unfold run. apply (fold_left_preserves notes_consistent).
    - intros s op. apply exec_notes_consistent.
    - constructor; cbn; constructor. }
  destruct H as [H1 H2 H3]. split; [exact H1|]. split; [|exact H3].
  intros n Hn. rewrite Forall_forall in H2. exact (H2 n Hn).
Qed.

Lemma reachable_notes_consistent_witness :
  let w := run [ OpCreateNote 0 0 None; OpSelectNote "note_1" true;
                 OpSelectNote "note_1" true; OpCreateNote 5 5 None;
                 OpMoveSelectedNotes 3 3 ] initial in
  NoDup (map n_id (notes w)) /\ NoDup (selectedNoteIds w).
Proof.
  intros w.
  destruct (reachable_notes_consistent w) as (H1 & _ & H3).
  - eexists. reflexivity.
  - split; assumption.
Defined.

Lemma linkId_inj m n : linkId m = linkId n -> m = n.
Proof.
  unfold linkId. cbn [String.append]. intros H.
  injection H as H. now apply decimal_inj.
Qed.

Lemma distinct_link_ids_kept (keep : Link -> bool) (ls : list Link) :
  NoDup (map l_id ls) -> NoDup (map l_id (filter keep ls)).
Proof.
  intros Hnd. induction ls as [|l ls IH]; [exact Hnd|].
  cbn in Hnd. apply NoDup_cons_iff in Hnd. destruct Hnd as [Hfresh Hrest].
  cbn. destruct (keep l); [|now apply IH].
  cbn. constructor; [|now apply IH].
  intros Hin. apply Hfresh. apply in_map_iff in Hin.
  destruct Hin as [m [Hm Hin]]. apply filter_In in Hin.
  rewrite <- Hm. apply in_map. tauto.
Qed.

Lemma links_consistent_kept keep w :
  links_consistent w -> links_consistent (set_links w (filter keep (links w))).
Proof.
  intros [H1 H2]. constructor; cbn [links set_links linkCounter].
  - now apply distinct_link_ids_kept.
  - now apply Forall_kept.
Qed.

Lemma links_consistent_frame w w' :
  links w' = links w -> linkCounter w' = linkCounter w ->
  links_consistent w -> links_consistent w'.
Proof.
  intros Hl Hc [H1 H2]. constructor; rewrite ?Hl, ?Hc; assumption.
Qed.

Lemma fresh_link_id w :
  links_consistent w ->
  ~ In (linkId (S (linkCounter w))) (map l_id (links w)).
Proof.
  intros [_ H2] Hin. apply in_map_iff in Hin. destruct Hin as [l [Hid Hl]].
  rewrite Forall_forall in H2. destruct (H2 l Hl) as (_ & k & Hk & Hl').
  rewrite Hl' in Hid. apply linkId_inj in Hid. lia.
Qed.

Lemma links_consistent_create a b w :
  links_consistent w -> links_consistent (snd (createLink a b w)).
Proof.
  intros H. pose proof (fresh_link_id w H) as Hfresh.
  destruct H as [H1 H2]. unfold createLink.
  destruct (String.eqb_spec a b) as [E|E]; [now constructor|].
  destruct (existsb (connects a b) (links w)); [now constructor|].
  constructor; cbn [snd links linkCounter].
  - rewrite map_app. cbn [map l_id].
    apply NoDup_app; [exact H1 | repeat constructor; intros [] |].
    intros id Hin [<-|[]]. now apply Hfresh.
  - apply Forall_app. split.
    + revert H2. apply Forall_impl. intros l (Hl & k & Hk & Hid).
      split; [exact Hl|]. exists k. split; [lia | exact Hid].
    + repeat constructor; [exact E|].
      exists (S (linkCounter w)). split; [lia | reflexivity].
Qed.

Lemma links_consistent_delete id w :
  links_consistent w -> links_consistent (deleteNote id w).
Proof.
  intros H.
  apply (links_consistent_frame (deleteLinksForNote id w)); try reflexivity.
  now apply links_consistent_kept.
Qed.

Lemma moves_keep_links dx dy ids : forall w,
  links (fold_left (fun s id => moveNote id dx dy s) ids w) = links w
  /\ linkCounter (fold_left (fun s id => moveNote id dx dy s) ids w)
     = linkCounter w.
Proof.
  induction ids as [|id ids IH]; intros w; [auto|].
  cbn [fold_left]. destruct (IH (moveNote id dx dy w)) as [-> ->]. auto.
Qed.

Lemma exec_links_consistent op w :
  links_consistent w -> links_consistent (exec op w).
Proof.
  intros H. destruct op; cbn [exec];
    try (apply (links_consistent_frame w); [reflexivity | reflexivity | exact H]).
  - now apply links_consistent_delete.
  - unfold deleteSelectedNotes.
    apply (links_consistent_frame
             (fold_left (fun s id => deleteNote id s) (selectedNoteIds w) w));
      try reflexivity.
    apply (fold_left_preserves links_consistent); [|exact H].
    intros s id'. apply links_consistent_delete.
  - apply (links_consistent_frame w); [| |exact H];
      unfold selectNote; destruct addToSelection; reflexivity.
  - destruct (moves_keep_links dx dy (selectedNoteIds w) w) as [E1 E2].
    now apply (links_consistent_frame w).
  - now apply links_consistent_create.
  - now apply links_consistent_kept.
  - now apply links_consistent_kept.
  - apply (links_consistent_frame w); [| |exact H];
      unfold applyZoom; destruct Req_dec_T; reflexivity.
  - apply (links_consistent_frame w); [| |exact H];
      unfold applyZoomFactor; destruct Rlt_dec; reflexivity.
Qed.

Lemma reachable_links_consistent_aux w : reachable w -> links_consistent w.
Proof.
  intros [ops ->]. unfold run.
  apply (fold_left_preserves links_consistent).
  - intros s op. apply exec_links_consistent.
  - constructor; cbn; constructor.
Qed.

(** X14. In every workspace reachable from the initial one by any
    sequence of operations: link ids are pairwise distinct, every link
    carries an id [link_<k>] with [k] at most the number of links created
    so far, and no link joins an id to itself. *)
Theorem reachable_links_consistent :
  forall w : State,
    reachable w ->
    NoDup (map l_id (links w))
    /\ (forall l, In l (links w) ->
          l_from l <> l_to l
          /\ exists k, (1 <= k <= linkCounter w)%nat /\ l_id l = linkId k).
Proof.
  intros w Hr. destruct (reachable_links_consistent_aux w Hr) as [H1 H2].
  split; [exact H1|]. intros l Hl. rewrite Forall_forall in H2.
  exact (H2 l Hl).
Qed.

Lemma reachable_links_consistent_witness :
  let w := run [ OpCreateLink "note_1" "note_2"; OpCreateLink "note_2" "note_3";
                 OpDeleteLink "link_1"; OpCreateLink "note_1" "note_2" ] initial in
  NoDup (map l_id (links w)).
Proof.
  intros w. destruct (reachable_links_consistent w) as (H & _).
  - eexists. reflexivity.
  - exact H.
Defined.

(** X15. Creating a link and deleting it by its id is a round trip on the
    link list: in every reachable workspace, when [createLink a b] returns
    a link, [deleteLink] of that link's id gives back the list of links as
    it was before the creation, and notes and selection are untouched. *)
Theorem deleteLink_undoes_createLink :
  forall (a b : string) (w w' : State) (l : Link),
    reachable w ->
    createLink a b w = (Some l, w') ->
    links (deleteLink (l_id l) w') = links w
    /\ notes (deleteLink (l_id l) w') = notes w
    /\ selectedNoteIds (deleteLink (l_id l) w') = selectedNoteIds w.
Proof.
  intros a b w w' l Hr Hc.
  pose proof (fresh_link_id w (reachable_links_consistent_aux w Hr)) as Hfresh.
  unfold createLink in Hc.
  destruct (String.eqb a b); [discriminate|].
  destruct (existsb (connects a b) (links w)); [discriminate|].
  injection Hc as <- <-.
  cbn [deleteLink set_links links notes selectedNoteIds l_id].
  split; [|auto].
  rewrite filter_app. cbn [filter l_id]. rewrite String.eqb_refl. cbn [negb].
  rewrite app_nil_r. apply filter_keeps_all. intros m Hm.
  destruct (String.eqb_spec (l_id m) (linkId (S (linkCounter w)))) as [E|E];
    [|reflexivity].
  exfalso. apply Hfresh. rewrite <- E. now apply in_map.
Qed.

Lemma deleteLink_undoes_createLink_witness :
  let w := snd (createLink "note_1" "note_2" initial) in
  links (deleteLink "link_2" (snd (createLink "note_2" "note_3" w))) = links w.
Proof.
  intros w.
  destruct (deleteLink_undoes_createLink "note_2" "note_3" w
              (snd (createLink "note_2" "note_3" w))
              (mkLink "link_2" "note_2" "note_3")) as (H & _).
  - exists [OpCreateLink "note_1" "note_2"]. reflexivity.
  - reflexivity.
  - exact H.
Defined.

(** ** Links of a note *)

Lemma touches_endpoint id l :
  touches id l = true <-> l_from l = id \/ l_to l = id.
Proof. unfold touches. now rewrite orb_true_iff, !String.eqb_eq. Qed.

(** X16. The links of a note follow creation and cascade: a link returned
    by [createLink a b] is among the links of [a] and of [b] afterwards
    and the links of every other id are unchanged; after
    [deleteLinksForNote n] the id [n] has no links, and any id [m] keeps
    exactly those of its links that did not touch [n]. *)
Theorem getLinksForNote_follows :
  (forall (a b : string) (w w' : State) (l : Link),
      createLink a b w = (Some l, w') ->
      In l (getLinksForNote a w') /\ In l (getLinksForNote b w')
      /\ (forall c, c <> a -> c <> b ->
            getLinksForNote c w' = getLinksForNote c w))
  /\ (forall (n : string) (w : State),
      getLinksForNote n (deleteLinksForNote n w) = []
      /\ (forall m, getLinksForNote m (deleteLinksForNote n w)
                    = filter (fun l => negb (touches n l))
                             (getLinksForNote m w))).
Proof.
  split.
  - intros a b w w' l Hc. unfold createLink in Hc.
    destruct (String.eqb a b); [discriminate|].
    destruct (existsb (connects a b) (links w)); [discriminate|].
    injection Hc as <- <-. unfold getLinksForNote. cbn [links].
    rewrite !filter_app. cbn [filter]. unfold touches at 2 4.
    cbn [l_from l_to]. rewrite !String.eqb_refl, orb_true_r. cbn [orb].
    split; [|split].
    + apply in_or_app. right. now left.
    + apply in_or_app. right. now left.
    + intros c Hca Hcb. rewrite filter_app. cbn [filter].
      unfold touches at 2. cbn [l_from l_to].
      apply not_eq_sym, String.eqb_neq in Hca, Hcb.
      rewrite Hca, Hcb. cbn. apply app_nil_r.
  - intros n w.
    assert (Hm : forall m, getLinksForNote m (deleteLinksForNote n w)
                           = filter (fun l => negb (touches n l))
                                    (getLinksForNote m w)).
    { intros m. unfold getLinksForNote, deleteLinksForNote.
      cbn [links set_links]. rewrite filter_swap. apply filter_ext.
      intros l. unfold touches. now rewrite negb_orb. }
    split; [|exact Hm].
    rewrite Hm. unfold getLinksForNote. rewrite filter_both.
    induction (links w) as [|l ls IH]; [reflexivity|].
    cbn. now destruct (touches n l).
Qed.

Lemma getLinksForNote_follows_witness :
  In (mkLink "link_1" "note_1" "note_2")
     (getLinksForNote "note_2" (snd (createLink "note_1" "note_2" initial))).
Proof.
  destruct getLinksForNote_follows as [H _].
  destruct (H "note_1" "note_2" initial _ _ eq_refl) as (_ & H2 & _).
  exact H2.
Defined.

(** ** Distance to a link segment *)






(** ** Hit testing of links *)






(** ** Pose classification *)

Lemma extended_not_curled lm tip mcp :
  isFingerExtended lm tip mcp = true -> isFingerCurled lm tip mcp = false.
Proof.
  unfold isFingerExtended, isFingerCurled, Rltb.
  repeat destruct Rlt_dec; auto; lra.
Qed.

(** X19. [classifyGesture] decides the pose by exclusive conditions: pinch
    exactly when the thumb-index distance is under 0.06; otherwise fist
    exactly when index, middle, ring and pinky are all curled, open exactly
    when all four are extended, point exactly when the index is extended
    and the other three are not all extended, and none exactly when the
    index is not extended and the four are not all curled. *)
Theorem classifyGesture_cases :
  forall lm : list Point,
    let pinched :=
      Rltb (dist (at_index lm THUMB_TIP) (at_index lm INDEX_TIP))
           PINCH_THRESHOLD in
    let allCurled :=
      isFingerCurled lm INDEX_TIP INDEX_MCP
      && isFingerCurled lm MIDDLE_TIP MIDDLE_MCP
      && isFingerCurled lm RING_TIP RING_MCP
      && isFingerCurled lm PINKY_TIP PINKY_MCP in
    let othersExtended :=
      isFingerExtended lm MIDDLE_TIP MIDDLE_MCP
      && isFingerExtended lm RING_TIP RING_MCP
      && isFingerExtended lm PINKY_TIP PINKY_MCP in
    let indexExtended := isFingerExtended lm INDEX_TIP INDEX_MCP in
    (classifyGesture lm = GPinch <-> pinched = true)
    /\ (classifyGesture lm = GFist <-> pinched = false /\ allCurled = true)
    /\ (classifyGesture lm = GOpen
        <-> pinched = false /\ indexExtended = true /\ othersExtended = true)
    /\ (classifyGesture lm = GPoint
        <-> pinched = false /\ indexExtended = true /\ othersExtended = false)
    /\ (classifyGesture lm = GNone
        <-> pinched = false /\ indexExtended = false /\ allCurled = false).
Proof.
  intros lm. cbv zeta. unfold classifyGesture.
  pose proof (extended_not_curled lm INDEX_TIP INDEX_MCP) as Hi.
  pose proof (extended_not_curled lm MIDDLE_TIP MIDDLE_MCP) as Hm.
  pose proof (extended_not_curled lm RING_TIP RING_MCP) as Hr.
  pose proof (extended_not_curled lm PINKY_TIP PINKY_MCP) as Hp.
  destruct (Rltb (dist (at_index lm THUMB_TIP) (at_index lm INDEX_TIP))
                 PINCH_THRESHOLD).
  - repeat split; intros; try discriminate; try tauto;
      repeat match goal with H : _ /\ _ |- _ => destruct H end; discriminate.
  - destruct (isFingerExtended lm INDEX_TIP INDEX_MCP),
             (isFingerExtended lm MIDDLE_TIP MIDDLE_MCP),
             (isFingerExtended lm RING_TIP RING_MCP),
             (isFingerExtended lm PINKY_TIP PINKY_MCP);
      try rewrite (Hi eq_refl); try rewrite (Hm eq_refl);
      try rewrite (Hr eq_refl); try rewrite (Hp eq_refl);
      clear Hi Hm Hr Hp;
      destruct (isFingerCurled lm INDEX_TIP INDEX_MCP),
               (isFingerCurled lm MIDDLE_TIP MIDDLE_MCP),
               (isFingerCurled lm RING_TIP RING_MCP),
               (isFingerCurled lm PINKY_TIP PINKY_MCP);
      cbn; repeat split; intros; try discriminate; try reflexivity;
      repeat match goal with H : _ /\ _ |- _ => destruct H end;
      try discriminate.
Qed.

(** ** Pose debounce and cursor smoothing *)

Lemma pinchMachine_gesture d t1 t2 h :
  gestureMode (pinchMachine d t1 t2 h) = gestureMode h
  /\ prevGestureMode (pinchMachine d t1 t2 h) = prevGestureMode h
  /\ gestureCandidate (pinchMachine d t1 t2 h) = gestureCandidate h
  /\ gestureCandidateFrames (pinchMachine d t1 t2 h) = gestureCandidateFrames h
  /\ detected (pinchMachine d t1 t2 h) = detected h.
Proof.
  unfold pinchMachine.
  repeat match goal with
         | |- context [if ?c then _ else _] => destruct c
         end; cbn; auto.
Qed.

Lemma Gesture_eqb_eq a b : Gesture_eqb a b = true <-> a = b.
Proof. destruct a, b; cbn; split; congruence. Qed.

(** The gesture bookkeeping of one valid frame. *)
Lemma handFrame_gesture cw ch f h :
  valid_frame f ->
  let s := handFrame cw ch f h in
  let frames := if Gesture_eqb (rawGesture f) (gestureCandidate h)
                then S (gestureCandidateFrames h) else 1%nat in
  detected s = true
  /\ gestureCandidate s = rawGesture f
  /\ gestureCandidateFrames s = frames
  /\ prevGestureMode s = gestureMode h
  /\ gestureMode s = if (3 <=? frames)%nat then rawGesture f else gestureMode h.
Proof.
  intros Hv. unfold handFrame, processOneHand, rawGesture, valid_frame in *.
  destruct (Nat.ltb_spec (List.length (hf_landmarks f)) 21) as [Hlt|_]; [lia|].
  cbv zeta.
  match goal with
  | |- context [pinchMachine ?d ?a ?b ?x] =>
      destruct (pinchMachine_gesture d a b x) as (-> & -> & -> & -> & ->)
  end.
  unfold GESTURE_CONFIRM_FRAMES.
  cbn [with_cursors with_detection gestureMode prevGestureMode
       gestureCandidate gestureCandidateFrames].
  destruct (Gesture_eqb (classifyGesture (hf_landmarks f)) (gestureCandidate h))
    eqn:E;
    cbn [with_gesture with_cursors with_detection gestureMode
         prevGestureMode gestureCandidate gestureCandidateFrames detected].
  - apply Gesture_eqb_eq in E.
    destruct (3 <=? S (gestureCandidateFrames h))%nat;
      cbn [with_gesture with_cursors with_detection gestureMode
           prevGestureMode gestureCandidate gestureCandidateFrames detected];
      auto.
  - cbn. auto.
Qed.

Lemma handRun_app cw ch fs1 fs2 h :
  handRun cw ch (fs1 ++ fs2) h = handRun cw ch fs2 (handRun cw ch fs1 h).
Proof. unfold handRun. apply fold_left_app. Qed.

(** Frames that repeat the candidate pose keep counting. *)
Lemma handRun_counts cw ch g fs : forall h k,
  Forall valid_frame fs -> Forall (fun f => rawGesture f = g) fs ->
  gestureCandidate h = g -> (k <= gestureCandidateFrames h)%nat ->
  gestureCandidate (handRun cw ch fs h) = g
  /\ (k + List.length fs <= gestureCandidateFrames (handRun cw ch fs h))%nat.
Proof.
  induction fs as [|f fs IH]; intros h k Hv Hg Hc Hk.
  - cbn. split; [exact Hc | lia].
  - inversion Hv as [|? ? Hvf Hvfs]; subst.
    inversion Hg as [|? ? Hgf Hgfs]; subst.
    change (handRun cw ch (f :: fs) h)
      with (handRun cw ch fs (handFrame cw ch f h)).
    destruct (handFrame_gesture cw ch f h Hvf) as (_ & S2 & S3 & _).
    cbv zeta in S3.
    assert (E : Gesture_eqb (rawGesture f) (gestureCandidate h) = true)
      by now apply Gesture_eqb_eq.
    rewrite E in S3.
    destruct (IH (handFrame cw ch f h) (S k) Hvfs Hgfs (eq_trans S2 Hgf)
                 ltac:(lia)) as [I1 I2].
    split; [exact I1|]. cbn [List.length]. lia.
Qed.

Lemma handFrame_first cw ch f h :
  valid_frame f ->
  gestureCandidate (handFrame cw ch f h) = rawGesture f
  /\ (1 <= gestureCandidateFrames (handFrame cw ch f h))%nat.
Proof.
  intros Hv. destruct (handFrame_gesture cw ch f h Hv) as (_ & S2 & S3 & _).
  cbv zeta in S3. split; [exact S2|]. rewrite S3.
  destruct Gesture_eqb; lia.
Qed.

Lemma handFrame_new_pose cw ch f h :
  valid_frame f -> rawGesture f <> gestureCandidate h ->
  gestureMode (handFrame cw ch f h) = gestureMode h
  /\ gestureCandidate (handFrame cw ch f h) = rawGesture f
  /\ gestureCandidateFrames (handFrame cw ch f h) = 1%nat.
Proof.
  intros Hv Hne.
  destruct (handFrame_gesture cw ch f h Hv) as (_ & S2 & S3 & _ & S5).
  cbv zeta in S3, S5.
  assert (E : Gesture_eqb (rawGesture f) (gestureCandidate h) = false).
  { destruct Gesture_eqb eqn:E; [|reflexivity].
    apply Gesture_eqb_eq in E. contradiction. }
  rewrite E in S3, S5. cbn in S5. auto.
Qed.

Lemma handFrame_second cw ch f h :
  valid_frame f -> rawGesture f = gestureCandidate h ->
  gestureCandidateFrames h = 1%nat ->
  gestureMode (handFrame cw ch f h) = gestureMode h
  /\ gestureCandidate (handFrame cw ch f h) = rawGesture f
  /\ gestureCandidateFrames (handFrame cw ch f h) = 2%nat.
Proof.
  intros Hv He H1.
  destruct (handFrame_gesture cw ch f h Hv) as (_ & S2 & S3 & _ & S5).
  cbv zeta in S3, S5.
  assert (E : Gesture_eqb (rawGesture f) (gestureCandidate h) = true)
    by now apply Gesture_eqb_eq.
  rewrite E, H1 in S3, S5. cbn in S5. auto.
Qed.

Lemma handFrame_commits cw ch f h :
  valid_frame f -> rawGesture f = gestureCandidate h ->
  (2 <= gestureCandidateFrames h)%nat ->
  gestureMode (handFrame cw ch f h) = rawGesture f.
Proof.
  intros Hv He H2.
  destruct (handFrame_gesture cw ch f h Hv) as (_ & _ & _ & _ & S5).
  cbv zeta in S5.
  assert (E : Gesture_eqb (rawGesture f) (gestureCandidate h) = true)
    by now apply Gesture_eqb_eq.
  rewrite E in S5.
  destruct (Nat.leb_spec 3 (S (gestureCandidateFrames h))); [exact S5 | lia].
Qed.

Lemma handRun_changing cw ch fs : forall h,
  Forall valid_frame fs -> changes_every_frame (gestureCandidate h) fs ->
  gestureMode (handRun cw ch fs h) = gestureMode h.
Proof.
  induction fs as [|f fs IH]; intros h Hv Hch; [reflexivity|].
  inversion Hv as [|? ? Hvf Hvfs]; subst. destruct Hch as [Hne Hrest].
  change (handRun cw ch (f :: fs) h)
    with (handRun cw ch fs (handFrame cw ch f h)).
  destruct (handFrame_new_pose cw ch f h Hvf Hne) as (M & C & _).
  rewrite IH; [exact M | exact Hvfs | now rewrite C].
Qed.

(** X20. Pose debounce over frames that carry at least 21 landmarks.  A
    raw pose seen in three or more frames in a row is the committed
    [gestureMode] after the last of them, from any hand state; when the
    pose is new (not the current candidate) the first and the second of
    its frames leave [gestureMode] as it was, so it is committed on the
    third; and along frames whose raw pose changes at every frame
    [gestureMode] never changes. *)
Theorem gesture_pose_debounce :
  forall (canvasWidth canvasHeight : R) (h : HandState),
    (forall (g : Gesture) (fs : list HandFrame),
        Forall valid_frame fs -> Forall (fun f => rawGesture f = g) fs ->
        (3 <= List.length fs)%nat ->
        gestureMode (handRun canvasWidth canvasHeight fs h) = g)
    /\ (forall (g : Gesture) (f1 f2 : HandFrame),
        valid_frame f1 -> valid_frame f2 ->
        rawGesture f1 = g -> rawGesture f2 = g ->
        g <> gestureCandidate h ->
        gestureMode (handRun canvasWidth canvasHeight [f1] h) = gestureMode h
        /\ gestureMode (handRun canvasWidth canvasHeight [f1; f2] h)
           = gestureMode h)
    /\ (forall fs : list HandFrame,
        Forall valid_frame fs ->
        changes_every_frame (gestureCandidate h) fs ->
        gestureMode (handRun canvasWidth canvasHeight fs h) = gestureMode h).
Proof.
  intros cw ch h. split; [|split].
  - intros g fs Hv Hg Hlen.
    destruct fs as [|f rest]; [cbn in Hlen; lia|].
    destruct (exists_last (l := rest)) as (mid & last & ->).
    { intros ->. cbn in Hlen. lia. }
    inversion Hv as [|? ? Hvf Hvr]; subst.
    inversion Hg as [|? ? Hgf Hgr]; subst.
    apply Forall_app in Hvr, Hgr.
    destruct Hvr as [Hvm Hvl], Hgr as [Hgm Hgl].
    inversion Hvl as [|? ? Hvlast _]; subst.
    inversion Hgl as [|? ? Hglast _]; subst.
    change (handRun cw ch (f :: mid ++ [last]) h)
      with (handRun cw ch (mid ++ [last]) (handFrame cw ch f h)).
    rewrite handRun_app.
    destruct (handFrame_first cw ch f h Hvf) as [C1 F1].
    destruct (handRun_counts cw ch (rawGesture f) mid (handFrame cw ch f h)
                1%nat Hvm Hgm C1 F1) as [C2 F2].
    cbn [handRun fold_left].
    rewrite <- Hglast. apply handFrame_commits; [exact Hvlast | congruence|].
    cbn [List.length] in Hlen. rewrite length_app in Hlen. cbn in Hlen.
    lia.
  - intros g f1 f2 Hv1 Hv2 Hg1 Hg2 Hnew.
    destruct (handFrame_new_pose cw ch f1 h Hv1 ltac:(congruence))
      as (M1 & C1 & F1).
    split; [exact M1|].
    destruct (handFrame_second cw ch f2 (handFrame cw ch f1 h) Hv2
                ltac:(congruence) F1) as (M2 & _).
    cbn [handRun fold_left]. congruence.
  - intros fs. apply handRun_changing.
Qed.

(** A hand whose 21 landmarks coincide is classified as a pinch. *)
Lemma coinciding_landmarks_pinch p t1 t2 :
  rawGesture (mkHandFrame (repeat p 21) t1 t2) = GPinch.
Proof.
  unfold rawGesture, classifyGesture. cbn [hf_landmarks].
  assert (H : Rltb (dist (at_index (repeat p 21) THUMB_TIP)
                         (at_index (repeat p 21) INDEX_TIP))
                   PINCH_THRESHOLD = true).
  { apply Rltb_true. unfold dist, PINCH_THRESHOLD.
    cbn [repeat at_index nth THUMB_TIP INDEX_TIP].
    replace ((px p - px p) ^ 2 + (py p - py p) ^ 2) with 0 by ring.
    rewrite sqrt_0. lra. }
  now rewrite H.
Qed.

Lemma gesture_pose_debounce_witness :
  let f := mkHandFrame (repeat (mkPoint (1 / 2) (1 / 2)) 21) 1000 1000 in
  gestureMode (handRun 640 480 [f; f; f] createHandState) = GPinch
  /\ gestureMode (handRun 640 480 [f; f] createHandState) = GNone.
Proof.
  intros f.
  destruct (gesture_pose_debounce 640 480 createHandState) as (H3 & H2 & _).
  assert (Hv : valid_frame f) by (unfold valid_frame; cbn; lia).
  assert (Hg : rawGesture f = GPinch) by apply coinciding_landmarks_pinch.
  split.
  - apply H3; [repeat constructor; exact Hv | repeat constructor; exact Hg|].
    cbn. lia.
  - destruct (H2 GPinch f f Hv Hv Hg Hg) as [_ H]; [discriminate | exact H].
Defined.





(** ** Two-hand combos and the resolved mode *)




(** X23. Processing absent results, or results without any hand, is the
    full reset: [processAllHands] then gives exactly the state
    [resetAllHands] gives, with both hands not detected and mode
    [idle]. *)
Theorem processAllHands_without_hands :
  forall (canvasWidth canvasHeight nowR1 nowR2 nowL1 nowL2 : R) (e : Engine)
         (handedness : option (list (option string))),
    processAllHands None canvasWidth canvasHeight nowR1 nowR2 nowL1 nowL2 e
      = resetAllHands e
    /\ processAllHands (Some (mkResults None handedness))
         canvasWidth canvasHeight nowR1 nowR2 nowL1 nowL2 e
       = resetAllHands e
    /\ processAllHands (Some (mkResults (Some []) handedness))
         canvasWidth canvasHeight nowR1 nowR2 nowL1 nowL2 e
       = resetAllHands e
    /\ detected (rightHand (resetAllHands e)) = false
    /\ detected (leftHand (resetAllHands e)) = false
    /\ interactionMode (resetAllHands e) = Idle.
Proof.
  intros cw ch t1 t2 t3 t4 e handedness.
  repeat split; destruct handedness; reflexivity.
Qed.






(** ** Which hand gets which role *)

(** X25. Hand identity resolution.  A single hand takes the left role
    when the tracker labels it "Right" and the right role otherwise
    (labelled "Left", labelled anything else, or not labelled).  Of two
    hands labelled "Left" and "Right", in either order, the one labelled
    "Left" takes the right role and the other the left role; of two hands
    with the same label "Left" the second one takes the right role and the
    left role stays empty; and two hands without a usable label are both
    dropped. *)
Theorem hand_identity_resolution :
  forall (lmA lmB : list Point),
    (forall label : option string,
        assignHands (Some (mkResults (Some [lmA]) (Some [label])))
        = if match label with
             | Some s => String.eqb s "Right"
             | None => false
             end
          then (None, Some lmA) else (Some lmA, None))
    /\ assignHands (Some (mkResults (Some [lmA]) None)) = (Some lmA, None)
    /\ assignHands (Some (mkResults (Some [lmA; lmB])
                                    (Some [Some "Left"; Some "Right"])))
       = (Some lmA, Some lmB)
    /\ assignHands (Some (mkResults (Some [lmA; lmB])
                                    (Some [Some "Right"; Some "Left"])))
       = (Some lmB, Some lmA)
    /\ assignHands (Some (mkResults (Some [lmA; lmB])
                                    (Some [Some "Left"; Some "Left"])))
       = (Some lmB, None)
    /\ (forall la lb : option string,
          la <> Some "Left" -> la <> Some "Right" ->
          lb <> Some "Left" -> lb <> Some "Right" ->
          assignHands (Some (mkResults (Some [lmA; lmB]) (Some [la; lb])))
          = (None, None)).
Proof.
  intros lmA lmB.
  assert (Hlabel : forall o : option string,
             o <> Some "Left" -> o <> Some "Right" ->
             String.eqb (match o with Some s => s | None => "" end) "Left"
               = false
             /\ String.eqb (match o with Some s => s | None => "" end) "Right"
               = false).
  { intros [s|] H1 H2; [|split; reflexivity].
    split; apply String.eqb_neq; congruence. }
  split; [|split; [|split; [|split; [|split]]]]; try reflexivity.
  - intros [s|]; [|reflexivity].
    unfold assignHands. cbn [multiHandLandmarks multiHandedness assignFrom].
    unfold labelAt. cbn [nth].
    destruct (String.eqb_spec s "Left") as [->|Hl]; [reflexivity|].
    destruct (String.eqb s "Right"); reflexivity.
  - intros la lb Ha1 Ha2 Hb1 Hb2.
    destruct (Hlabel la Ha1 Ha2) as [E1 E2].
    destruct (Hlabel lb Hb1 Hb2) as [E3 E4].
    unfold assignHands. cbn [multiHandLandmarks multiHandedness assignFrom].
    unfold labelAt. cbn [nth].
    now rewrite E1, E2, E3, E4.
Qed.

Lemma hand_identity_resolution_witness :
  assignHands (Some (mkResults (Some [[mkPoint 0 0]; [mkPoint 1 1]])
                               (Some [None; Some "left"])))
  = (None, None).
Proof.
  destruct (hand_identity_resolution [mkPoint 0 0] [mkPoint 1 1])
    as (_ & _ & _ & _ & _ & H).
  apply H; discriminate.
Defined.

(** ** Right-hand pinch and fist on the workspace *)

Lemma filter_after_flags (g : Note -> bool) (keep : string -> bool) ns :
  filter (fun m => keep (n_id m)) (map (fun m => set_selected (g m) m) ns)
  = map (fun m => set_selected (g m) m) (filter (fun m => keep (n_id m)) ns).
Proof.
  induction ns as [|m ns IH]; [reflexivity|].
  cbn. destruct (keep (n_id m)); cbn; now rewrite IH.
Qed.

Lemma includes_single id s : includes [id] s = String.eqb s id.
Proof. unfold includes. cbn. apply orb_false_r. Qed.

Lemma delete_only_selected id w :
  let w' := deleteSelectedNotes (selectNote id false w) in
  notes w' = map (set_selected false)
                 (filter (fun m => negb (String.eqb (n_id m) id)) (notes w))
  /\ links w' = filter (fun l => negb (String.eqb (l_from l) id)
                                 && negb (String.eqb (l_to l) id)) (links w)
  /\ selectedNoteIds w' = []
  /\ linkSourceId w' = linkSourceId w.
Proof.
  cbv zeta. unfold deleteSelectedNotes.
  destruct (deleteNotes_fold (selectedNoteIds (selectNote id false w))
              (selectNote id false w)) as [Hn Hl].
  cbn [clearSelection notes links selectedNoteIds set_notes
       set_selectedNoteIds linkSourceId].
  rewrite Hn, Hl.
  change (selectedNoteIds (selectNote id false w)) with [id].
  split; [|split; [|split]].
  - unfold selectNote. cbn [notes set_notes set_selectedNoteIds
                            clearSelection selectedNoteIds].
    rewrite (filter_after_flags _ (fun s => negb (includes [id] s))).
    rewrite (filter_after_flags (fun _ => false)
                                (fun s => negb (includes [id] s))).
    rewrite !map_map. cbn [set_selected n_id n_x n_y n_width n_height n_text
                           n_color].
    f_equal. apply filter_ext. intros m. now rewrite includes_single.
  - apply filter_ext. intros l. now rewrite !includes_single.
  - reflexivity.
  - apply (fold_left_preserves
             (fun s => linkSourceId s = linkSourceId w)); auto.
Qed.

(** X26. The delete tool removes the pinched note only.  On the frame of a
    confirmed pinch with the delete tool on a note, exactly the notes with
    that note's id and the links touching it are removed, every other note
    is kept, unflagged, even if it was selected, and no id remains
    selected.  Without the confirmation edge a pinch changes nothing,
    whatever the tool; neither does the delete tool off any note. *)
Theorem delete_tool_removes_pinched_note :
  forall (rh : HandView) (worldCursor : Point) (n : Note) (w : State),
    (hv_pinchJustConfirmed rh = true ->
     let w' := fst (handleRightPinch rh "delete" worldCursor (Some n) w) in
     notes w' = map (set_selected false)
                    (filter (fun m => negb (String.eqb (n_id m) (n_id n)))
                            (notes w))
     /\ links w' = filter (fun l => negb (String.eqb (l_from l) (n_id n))
                                    && negb (String.eqb (l_to l) (n_id n)))
                          (links w)
     /\ selectedNoteIds w' = []
     /\ handleRightPinch rh "delete" worldCursor None w = (w, None))
    /\ (hv_pinchJustConfirmed rh = false ->
        forall tool under,
          handleRightPinch rh tool worldCursor under w = (w, None)).
Proof.
  intros rh c n w. split.
  - intros He. unfold handleRightPinch. rewrite He. cbn [negb fst String.eqb
                                                         Ascii.eqb Bool.eqb].
    destruct (delete_only_selected (n_id n) w) as (H1 & H2 & H3 & _).
    auto.
  - intros He tool under. unfold handleRightPinch. now rewrite He.
Qed.

Lemma delete_tool_removes_pinched_note_witness :
  let w := selectNote "note_1" false
             (snd (createNote 0 0 None (snd (createNote 9 9 None initial)))) in
  let rh := mkHandView true (mkPoint 0 0) (mkPoint 0 0) (mkPoint 0 0) GPinch
                       true true true false None in
  map n_id (notes (fst (handleRightPinch rh "delete" (mkPoint 0 0)
                          (getNoteById "note_2" w) w)))
  = ["note_1"].
Proof.
  intros w rh.
  destruct (delete_tool_removes_pinched_note rh (mkPoint 0 0)
              (fst (createNote 0 0 None (snd (createNote 9 9 None initial)))) w)
    as [H _].
  destruct (H eq_refl) as (Hn & _).
  change (getNoteById "note_2" w)
    with (Some (fst (createNote 0 0 None (snd (createNote 9 9 None initial))))).
  rewrite Hn. reflexivity.
Defined.

Lemma createLink_joins a b w : a <> b -> linked a b (snd (createLink a b w)).
Proof.
  intros Hab. destruct (existsb (connects a b) (links w)) eqn:E.
  - apply existsb_connects_linked in E.
    now rewrite (createLink_duplicate a b w E).
  - assert (Hno : ~ linked a b w).
    { intros H. apply existsb_connects_linked in H. congruence. }
    rewrite (createLink_fresh a b w Hab Hno). cbn [snd].
    exists (mkLink (linkId (S (linkCounter w))) a b). cbn. split; auto.
    apply in_or_app. right. now left.
Qed.

(** X27. Two-step linking.  With the link tool and no link source pinned,
    a confirmed pinch on a note [A] pins [A] as the source and selects it
    alone; the next confirmed pinch, on a note [B], unpins the source and
    clears the selection, and then [A] and [B] are joined by a link when
    their ids differ, while pinching [A] itself again leaves the links as
    they were. *)
Theorem link_tool_two_steps :
  forall (rh : HandView) (worldCursor : Point) (A B : Note) (w : State),
    hv_pinchJustConfirmed rh = true ->
    noLinkSource w = true ->
    n_id A <> "" ->
    let w1 := fst (handleRightPinch rh "link" worldCursor (Some A) w) in
    let w2 := fst (handleRightPinch rh "link" worldCursor (Some B) w1) in
    linkSourceId w1 = Some (n_id A)
    /\ selectedNoteIds w1 = [n_id A]
    /\ links w1 = links w
    /\ linkSourceId w2 = None
    /\ selectedNoteIds w2 = []
    /\ (n_id A <> n_id B -> linked (n_id A) (n_id B) w2)
    /\ (n_id A = n_id B -> links w2 = links w).
Proof.
  intros rh c A B w He Hsrc HA w1 w2.
  assert (E1 : w1 = selectNote (n_id A) false
                      (set_linkSourceId w (Some (n_id A)))).
  { subst w1. unfold handleRightPinch. rewrite He, Hsrc. reflexivity. }
  assert (Hpinned : noLinkSource w1 = false).
  { rewrite E1. unfold noLinkSource. cbn. now apply String.eqb_neq. }
  assert (E2 : w2 = clearSelection
                      (set_linkSourceId
                         (snd (createLink (n_id A) (n_id B) w1)) None)).
  { subst w2. unfold handleRightPinch. rewrite He, Hpinned.
    cbn [negb fst String.eqb Ascii.eqb Bool.eqb]. rewrite E1. reflexivity. }
  rewrite E2. split; [now rewrite E1|]. split; [now rewrite E1|].
  split; [now rewrite E1|]. split; [reflexivity|]. split; [reflexivity|].
  split.
  - intros Hne. destruct (createLink_joins (n_id A) (n_id B) w1 Hne)
      as [l [Hin Hl]].
    exists l. split; [exact Hin | exact Hl].
  - intros <-. rewrite createLink_self. rewrite E1. reflexivity.
Qed.

Lemma link_tool_two_steps_witness :
  let w := snd (createNote 0 0 None (snd (createNote 900 900 None initial))) in
  let rh := mkHandView true (mkPoint 0 0) (mkPoint 0 0) (mkPoint 0 0) GPinch
                       true true true false None in
  let A := fst (createNote 900 900 None initial) in
  let B := fst (createNote 0 0 None (snd (createNote 900 900 None initial))) in
  linked "note_1" "note_2"
    (fst (handleRightPinch rh "link" (mkPoint 0 0) (Some B)
            (fst (handleRightPinch rh "link" (mkPoint 0 0) (Some A) w)))).
Proof.
  intros w rh A B.
  destruct (link_tool_two_steps rh (mkPoint 0 0) A B w eq_refl eq_refl)
    as (_ & _ & _ & _ & _ & H & _).
  - discriminate.
  - apply H. discriminate.
Defined.




(** ** Clean PNG export and file names *)










